(** * A shallow embedding of the simulation core of the Tommy Nova Shooting game

    Source: [src/unnamed/part_000] (the entity types), [src/src/constants.ts]
    (tuning profiles, colours, [WIN_SCORE]) and [src/unnamed/part_001] (the
    [App] component: [startGame], [handleCanvasClick] and the per-frame
    [update] callback).

    Modelling choices:
    - JavaScript numbers are modelled as real numbers [R]; the score, the
      ammunition counters and the level, which only ever hold small integers,
      are modelled as [Z].
    - The mutable refs ([missilesRef], [enemiesRef], [explosionsRef],
      [lastTimeRef], [spawnTimerRef], [scoreRef]) and the React states
      ([gameState], [batteries], [cities]) are the fields of one record
      [World]; one call of [update] is a function [World -> World].
    - [update] reads the React states [cities], [batteries] and [gameState]
      through its closure: they hold the values committed before the frame.
      The functional updates [setCities (prev => ...)] and
      [setBatteries (prev => ...)] queued during the frame are applied in
      order to the committed state; the model assumes React commits them
      (and re-creates [update]) before the next animation frame.
    - [Math.random()] draws are explicit inputs ([Draws]); the random [id]
      strings, sounds and drawing are presentation only and are left out. *)

From Stdlib Require Import Reals Lra Lia List String Ascii ZArith Bool.
Import ListNotations.
Open Scope R_scope.

(** ** Comparisons on [R] as booleans, as the JavaScript operators return them *)

Definition Rltb (a b : R) : bool := if Rlt_dec a b then true else false.
Definition Rleb (a b : R) : bool := if Rle_dec a b then true else false.
Definition Reqb (a b : R) : bool := if Req_EM_T a b then true else false.

(** ** Data model ([types.ts]) *)

Module Point.
Record t := mk { x : R; y : R }.
End Point.

Inductive GameMode := LOW | NORMAL | HIGH | ULTRA | FUTURE.

Record ModeConfig := { speedMult : R; powerMult : R }.

(** [MODE_CONFIGS] of [constants.ts] (the labels are presentation only). *)
Definition MODE_CONFIGS (m : GameMode) : ModeConfig :=
  match m with
  | LOW => {| speedMult := 1.0; powerMult := 1.0 |}
  | NORMAL => {| speedMult := 1.4; powerMult := 1.1 |}
  | HIGH => {| speedMult := 1.8; powerMult := 1.2 |}
  | ULTRA => {| speedMult := 2.2; powerMult := 1.3 |}
  | FUTURE => {| speedMult := 2.6; powerMult := 1.4 |}
  end.

(** The colours the simulation compares ([COLORS] of [constants.ts]). *)
Inductive Color := PLAYER_MISSILE | ENEMY_MISSILE | EXPLOSION.

Definition isEXPLOSION (c : Color) : bool :=
  match c with EXPLOSION => true | _ => false end.

Definition GAME_WIDTH : R := 800.
Definition WIN_SCORE : Z := 1000%Z.

(** [Missile] and [Enemy]: an [Entity] with a [startPos]. The [target] is
    optional in the interface, but every missile and enemy is created with
    one and the code reads it as [target!]. *)
Module Entity.
Record t := mk {
  pos : Point.t;
  startPos : Point.t;
  target : Point.t;
  speed : R;
  radius : R;
  color : Color;
  active : bool }.

Definition set_pos (p : Point.t) (e : t) : t :=
  mk p (startPos e) (target e) (speed e) (radius e) (color e) (active e).
Definition set_active (b : bool) (e : t) : t :=
  mk (pos e) (startPos e) (target e) (speed e) (radius e) (color e) b.
End Entity.

Module Explosion.
Record t := mk {
  pos : Point.t;
  speed : R;
  radius : R;
  maxRadius : R;
  growthRate : R;
  isShrinking : bool;
  color : Color;
  active : bool }.

Definition set_radius (r : R) (e : t) : t :=
  mk (pos e) (speed e) r (maxRadius e) (growthRate e) (isShrinking e)
     (color e) (active e).
Definition set_isShrinking (b : bool) (e : t) : t :=
  mk (pos e) (speed e) (radius e) (maxRadius e) (growthRate e) b
     (color e) (active e).
Definition set_active (b : bool) (e : t) : t :=
  mk (pos e) (speed e) (radius e) (maxRadius e) (growthRate e)
     (isShrinking e) (color e) b.
End Explosion.

Module Battery.
Record t := mk {
  id : string;
  pos : Point.t;
  missiles : Z;
  maxMissiles : Z;
  destroyed : bool }.

Definition set_missiles (n : Z) (b : t) : t :=
  mk (id b) (pos b) n (maxMissiles b) (destroyed b).
Definition set_destroyed (d : bool) (b : t) : t :=
  mk (id b) (pos b) (missiles b) (maxMissiles b) d.
End Battery.

Module City.
Record t := mk { id : string; pos : Point.t; destroyed : bool }.

Definition set_destroyed (d : bool) (c : t) : t := mk (id c) (pos c) d.
End City.

Inductive Status := START | PLAYING | WON | LOST.

Module GameState.
Record t := mk { score : Z; level : Z; mode : GameMode; status : Status }.

Definition set_score (s : Z) (g : t) : t := mk s (level g) (mode g) (status g).
Definition set_status (s : Status) (g : t) : t := mk (score g) (level g) (mode g) s.
End GameState.

(** The component's state: React states and refs. *)
Record World := mkWorld {
  gameState : GameState.t;
  batteries : list Battery.t;
  cities : list City.t;
  missilesRef : list Entity.t;
  enemiesRef : list Entity.t;
  explosionsRef : list Explosion.t;
  lastTimeRef : R;
  spawnTimerRef : R;
  scoreRef : Z }.

Definition INITIAL_BATTERIES : list Battery.t :=
  [ Battery.mk "b1" (Point.mk 100 560) 20 20 false;
    Battery.mk "b2" (Point.mk 400 560) 40 40 false;
    Battery.mk "b3" (Point.mk 700 560) 20 20 false ].

Definition INITIAL_CITIES : list City.t :=
  [ City.mk "c1" (Point.mk 200 570) false;
    City.mk "c2" (Point.mk 300 570) false;
    City.mk "c3" (Point.mk 500 570) false;
    City.mk "c4" (Point.mk 600 570) false ].

(** ** [startGame] *)

Definition startGame (mode : GameMode) (w : World) : World :=
  {| gameState := GameState.mk 0 1 mode PLAYING;
     scoreRef := 0%Z;
     lastTimeRef := 0;
     batteries :=
       map (fun b => Battery.set_destroyed false
                       (Battery.set_missiles (Battery.maxMissiles b) b))
           INITIAL_BATTERIES;
     cities := map (fun c => City.set_destroyed false c) INITIAL_CITIES;
     missilesRef := [];
     enemiesRef := [];
     explosionsRef := [];
     spawnTimerRef := 0 |}.

(** ** [handleCanvasClick]

    The pointer coordinates are already translated to the playfield point
    [p] (input translation is a collaborator). [minDist = Infinity] is
    [None]. *)

Definition eligible (b : Battery.t) : bool :=
  negb (Battery.destroyed b) && (0 <? Battery.missiles b)%Z.

Definition ltMinDist (d : R) (minDist : option R) : bool :=
  match minDist with None => true | Some m => Rltb d m end.

Definition closestStep (p : Point.t)
    (acc : option Battery.t * option R) (b : Battery.t)
    : option Battery.t * option R :=
  let '(bestBattery, minDist) := acc in
  if eligible b then
    let dist := Rabs (Point.x (Battery.pos b) - Point.x p) in
    if ltMinDist dist minDist then (Some b, Some dist) else acc
  else acc.

Definition closestBattery (bs : list Battery.t) (p : Point.t) : option Battery.t :=
  fst (fold_left (closestStep p) bs (None, None)).

Definition launchedMissile (cfg : ModeConfig) (b : Battery.t) (p : Point.t) : Entity.t :=
  Entity.mk (Battery.pos b) (Battery.pos b) p (5 * speedMult cfg) 2
            PLAYER_MISSILE true.

Definition decrementAmmo (b : Battery.t) (pb : Battery.t) : Battery.t :=
  if String.eqb (Battery.id pb) (Battery.id b)
  then Battery.set_missiles (Battery.missiles pb - 1) pb else pb.

Definition handleCanvasClick (p : Point.t) (w : World) : World :=
  match GameState.status (gameState w) with
  | PLAYING =>
    match closestBattery (batteries w) p with
    | None => w
    | Some b =>
      {| gameState := gameState w;
         batteries := map (decrementAmmo b) (batteries w);
         cities := cities w;
         missilesRef :=
           missilesRef w
             ++ [launchedMissile (MODE_CONFIGS (GameState.mode (gameState w))) b p];
         enemiesRef := enemiesRef w;
         explosionsRef := explosionsRef w;
         lastTimeRef := lastTimeRef w;
         spawnTimerRef := spawnTimerRef w;
         scoreRef := scoreRef w |}
    end
  | _ => w
  end.

(** ** The frame callback [update] *)

(** *** Spawning *)

(** The four [Math.random()] draws of a spawn, in source order. *)
Record Draws := {
  rnd_target : R;
  rnd_x : R;
  rnd_startx : R;
  rnd_speed : R }.

Definition spawnInterval (score : Z) : R :=
  Rmax 500 (2000 - (IZR score / 100) * 100).

Definition targetOptions (cs : list City.t) (bs : list Battery.t) : list Point.t :=
  map City.pos (filter (fun c => negb (City.destroyed c)) cs)
  ++ map Battery.pos (filter (fun b => negb (Battery.destroyed b)) bs).

(** [Math.floor] of a non-negative number. *)
Definition floorIndex (r : R) : nat := Z.to_nat (Int_part r).

Definition spawnedEnemy (cfg : ModeConfig) (d : Draws) (target : Point.t) : Entity.t :=
  Entity.mk (Point.mk (rnd_x d * GAME_WIDTH) (-20))
            (Point.mk (rnd_startx d * GAME_WIDTH) (-20))
            target
            ((0.8 + rnd_speed d * 0.6) * speedMult cfg)
            2 ENEMY_MISSILE true.

(** Returns the new [spawnTimerRef] and [enemiesRef]. *)
Definition spawnStep (cfg : ModeConfig) (cs : list City.t) (bs : list Battery.t)
    (score : Z) (deltaTime : R) (d : Draws) (timer : R) (enemies : list Entity.t)
    : R * list Entity.t :=
  let timer1 := timer + deltaTime in
  if Rltb (spawnInterval score) timer1 then
    let targetOptions := targetOptions cs bs in
    match targetOptions with
    | [] => (0, enemies)
    | _ :: _ =>
      let target := nth (floorIndex (rnd_target d * INR (List.length targetOptions)))
                        targetOptions (Point.mk 0 0) in
      (0, enemies ++ [spawnedEnemy cfg d target])
    end
  else (timer1, enemies).

(** *** Kinematics, shared by the missile and the enemy loops (lines 158-163,
    178-179 and 186-191, 219-220 are the same code) *)

Definition dist (dx dy : R) : R := sqrt (dx * dx + dy * dy).

Definition kinStep (speedScale : R) (m : Entity.t) : Entity.t * bool :=
  let dx := Point.x (Entity.target m) - Point.x (Entity.pos m) in
  let dy := Point.y (Entity.target m) - Point.y (Entity.pos m) in
  let d := dist dx dy in
  let moveDist := Entity.speed m * speedScale in
  if Rleb d moveDist || Reqb d 0 then (Entity.set_active false m, true)
  else (Entity.set_pos (Point.mk (Point.x (Entity.pos m) + (dx / d) * moveDist)
                                 (Point.y (Entity.pos m) + (dy / d) * moveDist)) m,
        false).

(** *** Player missiles *)

Definition playerExplosion (cfg : ModeConfig) (speedScale : R) (m : Entity.t)
    : Explosion.t :=
  Explosion.mk (Entity.target m) 0 2 (96 * powerMult cfg) (3.0 * speedScale)
               false EXPLOSION true.

Fixpoint updateMissiles (cfg : ModeConfig) (speedScale : R) (ms : list Entity.t)
    (exps : list Explosion.t) : list Entity.t * list Explosion.t :=
  match ms with
  | [] => ([], exps)
  | m :: rest =>
    if Entity.active m then
      let '(m', arrived) := kinStep speedScale m in
      let exps' := if arrived then exps ++ [playerExplosion cfg speedScale m] else exps in
      let '(rest', exps'') := updateMissiles cfg speedScale rest exps' in
      (m' :: rest', exps'')
    else
      let '(rest', exps') := updateMissiles cfg speedScale rest exps in
      (m :: rest', exps')
  end.

(** *** Enemies: movement, ground impact and collisions with player blasts *)

Definition impactCity (p : Point.t) (c : City.t) : City.t :=
  if Rltb (Rabs (Point.x (City.pos c) - Point.x p)) 25
     && Rltb (Rabs (Point.y (City.pos c) - Point.y p)) 25
  then City.set_destroyed true c else c.

Definition impactBattery (p : Point.t) (b : Battery.t) : Battery.t :=
  if Rltb (Rabs (Point.x (Battery.pos b) - Point.x p)) 35
     && Rltb (Rabs (Point.y (Battery.pos b) - Point.y p)) 35
  then Battery.set_destroyed true b else b.

Definition threatExplosion (speedScale : R) (e : Entity.t) : Explosion.t :=
  Explosion.mk (Entity.pos e) 0 2 36 (2.4 * speedScale) false ENEMY_MISSILE true.

(** The test of lines 225-229. *)
Definition hitTest (e : Entity.t) (exp : Explosion.t) : bool :=
  isEXPLOSION (Explosion.color exp) && Explosion.active exp
  && Rltb (dist (Point.x (Entity.pos e) - Point.x (Explosion.pos exp))
                (Point.y (Entity.pos e) - Point.y (Explosion.pos exp)))
          (Explosion.radius exp + 10).

(** The inner [explosionsRef.current.forEach] (lines 224-235): returns the
    enemy, the React [gameState] and [scoreRef]. *)
Fixpoint checkCollisions (e : Entity.t) (exps : list Explosion.t)
    (gs : GameState.t) (score : Z) : Entity.t * GameState.t * Z :=
  match exps with
  | [] => (e, gs, score)
  | exp :: rest =>
    if hitTest e exp then
      checkCollisions (Entity.set_active false e) rest
                      (GameState.set_score (score + 20) gs) (score + 20)
    else checkCollisions e rest gs score
  end.

(** What the enemy loop threads through: [cities], [batteries] (with the
    queued functional updates applied), [explosionsRef], [gameState] and
    [scoreRef]. *)
Definition EnemyAcc : Type :=
  (list City.t * list Battery.t * list Explosion.t * GameState.t * Z)%type.

Definition enemyStep (speedScale : R) (e : Entity.t) (acc : EnemyAcc)
    : Entity.t * EnemyAcc :=
  let '(cs, bs, exps, gs, score) := acc in
  if negb (Entity.active e) then (e, acc)
  else
    let '(e1, arrived) := kinStep speedScale e in
    let '(cs1, bs1, exps1) :=
      if arrived then
        (map (impactCity (Entity.pos e1)) cs,
         map (impactBattery (Entity.pos e1)) bs,
         exps ++ [threatExplosion speedScale e1])
      else (cs, bs, exps) in
    let '(e2, gs2, score2) := checkCollisions e1 exps1 gs score in
    (e2, (cs1, bs1, exps1, gs2, score2)).

Fixpoint updateEnemies (speedScale : R) (es : list Entity.t) (acc : EnemyAcc)
    : list Entity.t * EnemyAcc :=
  match es with
  | [] => ([], acc)
  | e :: rest =>
    let '(e', acc') := enemyStep speedScale e acc in
    let '(rest', acc'') := updateEnemies speedScale rest acc' in
    (e' :: rest', acc'')
  end.

(** *** Explosion lifecycle (lines 239-252) *)

Definition explosionStep (exp : Explosion.t) : Explosion.t :=
  if negb (Explosion.active exp) then exp
  else if negb (Explosion.isShrinking exp) then
    let exp1 := Explosion.set_radius (Explosion.radius exp + Explosion.growthRate exp) exp in
    if Rleb (Explosion.maxRadius exp1) (Explosion.radius exp1)
    then Explosion.set_isShrinking true exp1 else exp1
  else
    let exp1 := Explosion.set_radius
                  (Explosion.radius exp - Explosion.growthRate exp * 0.5) exp in
    if Rleb (Explosion.radius exp1) 0
    then Explosion.set_active false exp1 else exp1.

(** *** The frame *)

(** Lines 259-271; [bs] is the closure's [batteries], i.e. the state committed
    before the frame. *)
Definition endCheck (score : Z) (bs : list Battery.t) (enemies : list Entity.t)
    (exps : list Explosion.t) (status : Status) : Status :=
  let activeBatteries := List.length (filter (fun b => negb (Battery.destroyed b)) bs) in
  if (WIN_SCORE <=? score)%Z then WON
  else if Nat.eqb activeBatteries 0 && Nat.eqb (List.length enemies) 0
          && Nat.eqb (List.length exps) 0
  then LOST else status.

Definition update (time : R) (d : Draws) (w : World) : World :=
  let last := if Reqb (lastTimeRef w) 0 then time else lastTimeRef w in
  let deltaTime := time - last in
  match GameState.status (gameState w) with
  | PLAYING =>
    let cfg := MODE_CONFIGS (GameState.mode (gameState w)) in
    let speedScale := deltaTime / 16.67 in
    let '(timer, enemies0) :=
      spawnStep cfg (cities w) (batteries w) (scoreRef w) deltaTime d
                (spawnTimerRef w) (enemiesRef w) in
    let '(missiles1, exps1) :=
      updateMissiles cfg speedScale (missilesRef w) (explosionsRef w) in
    let '(enemies1, (cs, bs, exps2, gs, score)) :=
      updateEnemies speedScale enemies0
                    (cities w, batteries w, exps1, gameState w, scoreRef w) in
    let exps3 := map explosionStep exps2 in
    let missiles2 := filter Entity.active missiles1 in
    let enemies2 := filter Entity.active enemies1 in
    let exps4 := filter Explosion.active exps3 in
    {| gameState :=
         GameState.set_status
           (endCheck score (batteries w) enemies2 exps4 (GameState.status gs)) gs;
       batteries := bs;
       cities := cs;
       missilesRef := missiles2;
       enemiesRef := enemies2;
       explosionsRef := exps4;
       lastTimeRef := time;
       spawnTimerRef := timer;
       scoreRef := score |}
  | _ =>
    {| gameState := gameState w;
       batteries := batteries w;
       cities := cities w;
       missilesRef := missilesRef w;
       enemiesRef := enemiesRef w;
       explosionsRef := explosionsRef w;
       lastTimeRef := time;
       spawnTimerRef := spawnTimerRef w;
       scoreRef := scoreRef w |}
  end.

(** ** Relations used by the statements *)

(** A city keeps its identity and position, and a destroyed city stays
    destroyed. *)
Definition cityKept (c c' : City.t) : Prop :=
  City.id c' = City.id c /\ City.pos c' = City.pos c
  /\ (City.destroyed c = true -> City.destroyed c' = true).

(** A battery keeps its identity, position and ammunition, and a destroyed
    battery stays destroyed. *)
Definition batteryKept (b b' : Battery.t) : Prop :=
  Battery.id b' = Battery.id b /\ Battery.pos b' = Battery.pos b
  /\ Battery.missiles b' = Battery.missiles b
  /\ Battery.maxMissiles b' = Battery.maxMissiles b
  /\ (Battery.destroyed b = true -> Battery.destroyed b' = true).

(** Number of player blasts an enemy at its position is tested as hit by. *)
Definition hits (e : Entity.t) (exps : list Explosion.t) : nat :=
  List.length (filter (hitTest e) exps).

(** What one enemy's step does to the loop's accumulator: cities and
    batteries are only ever destroyed, explosions are only appended (one
    threat-class blast per impact), and the score grows by multiples of 20. *)
Definition accStep (speedScale : R) (acc acc' : EnemyAcc) : Prop :=
  let '(cs, bs, exps, gs, s) := acc in
  let '(cs', bs', exps', gs', s') := acc' in
  Forall2 cityKept cs cs' /\ Forall2 batteryKept bs bs' /\
  (exists l, exps' = exps ++ l
             /\ Forall (fun x => exists e0, x = threatExplosion speedScale e0) l
             /\ (l = [] -> cs' = cs /\ bs' = bs)) /\
  (exists k : nat, s' = s + 20 * Z.of_nat k)%Z /\
  GameState.status gs' = GameState.status gs.

(** The explosion invariant: a non-negative growth rate, and an active
    explosion has a non-negative radius at most one growth step above its
    cap, below the cap while still growing. *)
Definition explosionInv (x : Explosion.t) : Prop :=
  0 <= Explosion.growthRate x /\
  (Explosion.active x = true ->
     0 <= Explosion.radius x
     /\ Explosion.radius x <= Explosion.maxRadius x + Explosion.growthRate x
     /\ (Explosion.isShrinking x = false ->
         Explosion.radius x < Explosion.maxRadius x)).

(** ** Concrete inputs used by the witnesses and counterexamples *)

(** A freshly started NORMAL game. *)
Definition demoWorld : World :=
  {| gameState := GameState.mk 0 1 NORMAL PLAYING;
     batteries := INITIAL_BATTERIES;
     cities := INITIAL_CITIES;
     missilesRef := [];
     enemiesRef := [];
     explosionsRef := [];
     lastTimeRef := 0;
     spawnTimerRef := 0;
     scoreRef := 0%Z |}.

Definition zeroDraws : Draws :=
  {| rnd_target := 0; rnd_x := 0; rnd_startx := 0; rnd_speed := 0 |}.

(** What [closestBattery] has established after scanning [seen]. *)
Definition closestInv (p : Point.t) (seen : list Battery.t)
    (acc : option Battery.t * option R) : Prop :=
  match acc with
  | (None, None) => forall b, In b seen -> eligible b = false
  | (Some b, Some m) =>
      In b seen /\ eligible b = true /\ m = Rabs (Point.x (Battery.pos b) - Point.x p)
      /\ forall b', In b' seen -> eligible b' = true ->
                    m <= Rabs (Point.x (Battery.pos b') - Point.x p)
  | _ => False
  end.

Definition ammoOk (b : Battery.t) : Prop :=
  (0 <= Battery.missiles b <= Battery.maxMissiles b)%Z.

(** A PLAYING game with one enemy flying straight down through two
    overlapping player blasts. *)
Definition collisionEnemy : Entity.t :=
  Entity.mk (Point.mk 400 100) (Point.mk 400 100) (Point.mk 400 500) 1 2
            ENEMY_MISSILE true.

Definition collisionBlast : Explosion.t :=
  Explosion.mk (Point.mk 400 101) 0 20 105.6 3 false EXPLOSION true.

Definition collisionWorld : World :=
  {| gameState := GameState.mk 0 1 NORMAL PLAYING;
     batteries := INITIAL_BATTERIES;
     cities := INITIAL_CITIES;
     missilesRef := [];
     enemiesRef := [collisionEnemy];
     explosionsRef := [collisionBlast; collisionBlast];
     lastTimeRef := 1000;
     spawnTimerRef := 0;
     scoreRef := 0%Z |}.

(** The spawn interval as the specification words it,
    [max(500, 2000 - floor(score / 100) * 100)], for comparison with
    [spawnInterval]. *)
Definition spec_spawnInterval (score : Z) : R :=
  Rmax 500 (2000 - IZR (score / 100) * 100).

(** A PLAYING game at score 20 whose spawn accumulator holds 1900 ms. *)
Definition spawnWorld : World :=
  {| gameState := GameState.mk 20 1 NORMAL PLAYING;
     batteries := INITIAL_BATTERIES;
     cities := INITIAL_CITIES;
     missilesRef := [];
     enemiesRef := [];
     explosionsRef := [];
     lastTimeRef := 1000;
     spawnTimerRef := 1900;
     scoreRef := 20%Z |}.

(** An enemy 30 units above its target, the city [c1] at (200, 570). *)
Definition impactEnemy : Entity.t :=
  Entity.mk (Point.mk 200 540) (Point.mk 200 (-20)) (Point.mk 200 570) 1 2
            ENEMY_MISSILE true.

Definition impactWorld : World :=
  {| gameState := GameState.mk 0 1 NORMAL PLAYING;
     batteries := INITIAL_BATTERIES;
     cities := INITIAL_CITIES;
     missilesRef := [];
     enemiesRef := [impactEnemy];
     explosionsRef := [];
     lastTimeRef := 1000;
     spawnTimerRef := 0;
     scoreRef := 0%Z |}.

(** ** The rest of the component: initial state, overlay buttons, the
    animation loop and the ammunition panel *)

(** The state of a freshly mounted component (lines 29-46). *)
Definition initialWorld : World :=
  {| gameState := GameState.mk 0 1 NORMAL START;
     batteries := INITIAL_BATTERIES;
     cities := INITIAL_CITIES;
     missilesRef := [];
     enemiesRef := [];
     explosionsRef := [];
     lastTimeRef := 0;
     spawnTimerRef := 0;
     scoreRef := 0%Z |}.

(** "Play Again" on the WON overlay (line 618):
    [setGameState(prev => ({ ...prev, status: 'START' }))]. *)
Definition playAgain (w : World) : World :=
  {| gameState := GameState.set_status START (gameState w);
     batteries := batteries w;
     cities := cities w;
     missilesRef := missilesRef w;
     enemiesRef := enemiesRef w;
     explosionsRef := explosionsRef w;
     lastTimeRef := lastTimeRef w;
     spawnTimerRef := spawnTimerRef w;
     scoreRef := scoreRef w |}.

(** "Retry" on the LOST overlay (lines 638-643): back to START with the
    initial layout; the refs are left as they are. *)
Definition retry (w : World) : World :=
  {| gameState := GameState.set_status START (gameState w);
     batteries := INITIAL_BATTERIES;
     cities := INITIAL_CITIES;
     missilesRef := missilesRef w;
     enemiesRef := enemiesRef w;
     explosionsRef := explosionsRef w;
     lastTimeRef := lastTimeRef w;
     spawnTimerRef := spawnTimerRef w;
     scoreRef := scoreRef w |}.

(** What can happen to the component: an animation frame ([loop], lines
    420-428, calls [update] with the frame timestamp), a pointer press on
    the canvas (lines 539-540), a mode button (line 586), and the two overlay
    buttons. The overlays are only rendered in the START, WON and LOST
    statuses; [dispatch] does not rely on that, so what is proved about
    every sequence of events holds in particular for the ones a user can
    produce. *)
Inductive Event :=
| Frame (time : R) (d : Draws)
| Click (p : Point.t)
| StartMode (mode : GameMode)
| PlayAgain
| Retry.

Definition dispatch (w : World) (ev : Event) : World :=
  match ev with
  | Frame time d => update time d w
  | Click p => handleCanvasClick p w
  | StartMode mode => startGame mode w
  | PlayAgain => playAgain w
  | Retry => retry w
  end.

Definition run (evs : list Event) (w : World) : World := fold_left dispatch evs w.

(** The world with only [lastTimeRef] replaced: what [update] does outside
    PLAYING (lines 118-127). *)
Definition stampTime (t : R) (w : World) : World :=
  {| gameState := gameState w;
     batteries := batteries w;
     cities := cities w;
     missilesRef := missilesRef w;
     enemiesRef := enemiesRef w;
     explosionsRef := explosionsRef w;
     lastTimeRef := t;
     spawnTimerRef := spawnTimerRef w;
     scoreRef := scoreRef w |}.

Definition frameOrClick (ev : Event) : bool :=
  match ev with Frame _ _ | Click _ => true | _ => false end.

(** The timestamp of the last frame of [evs], [t0] if there is none. *)
Definition lastFrameTime (t0 : R) (evs : list Event) : R :=
  fold_left (fun t ev => match ev with Frame t' _ => t' | _ => t end) evs t0.

(** [Math.random()] returns a number in [[0, 1)]. *)
Definition drawsOk (d : Draws) : Prop :=
  0 <= rnd_target d < 1 /\ 0 <= rnd_x d < 1 /\ 0 <= rnd_startx d < 1
  /\ 0 <= rnd_speed d < 1.

Definition eventDrawsOk (ev : Event) : Prop :=
  match ev with Frame _ d => drawsOk d | _ => True end.

(** Frame timestamps at least [t] and non-decreasing, as
    [requestAnimationFrame] supplies them. *)
Fixpoint timesFrom (t : R) (evs : list Event) : Prop :=
  match evs with
  | [] => True
  | Frame t' _ :: rest => t <= t' /\ timesFrom t' rest
  | _ :: rest => timesFrom t rest
  end.

(** The seven positions of the layout: the cities', then the batteries'. *)
Definition layoutPositions : list Point.t :=
  map City.pos INITIAL_CITIES ++ map Battery.pos INITIAL_BATTERIES.

(** Sum of the batteries' [missiles]. *)
Definition sumAmmo (bs : list Battery.t) : Z :=
  fold_right (fun b acc => (Battery.missiles b + acc)%Z) 0%Z bs.

(** An explosion of the player class ([color === COLORS.EXPLOSION]). *)
Definition playerBlast (x : Explosion.t) : bool := isEXPLOSION (Explosion.color x).

(** *** The ammunition panel (lines 673-685) *)

(** Width in percent of a battery's ammunition bar:
    [(b.missiles / b.maxMissiles) * 100]. *)
Definition ammoBarWidth (b : Battery.t) : R :=
  IZR (Battery.missiles b) / IZR (Battery.maxMissiles b) * 100.

(** [Number.prototype.toString()] of an integer: its decimal digits, with a
    leading [-] for a negative one. [natDigits] prepends the digits of [n]
    to [acc]; [S n] steps are always enough. *)
Fixpoint natDigits (fuel n : nat) (acc : string) : string :=
  match fuel with
  | O => acc
  | S f =>
    let acc' := String (ascii_of_nat (48 + n mod 10)) acc in
    if Nat.ltb n 10 then acc' else natDigits f (n / 10) acc'
  end.

Definition natToString (n : nat) : string := natDigits (S n) n EmptyString.

Definition numberToString (z : Z) : string :=
  if (z <? 0)%Z then String "-" (natToString (Z.to_nat (- z)))
  else natToString (Z.to_nat z).

Fixpoint repeatChar (n : nat) (c : ascii) : string :=
  match n with O => EmptyString | S k => String c (repeatChar k c) end.

(** [String.prototype.padStart(targetLength, c)] with a one-character pad. *)
Definition padStart (s : string) (targetLength : nat) (c : ascii) : string :=
  if Nat.ltb (String.length s) targetLength
  then append (repeatChar (targetLength - String.length s) c) s else s.

(** The ammunition label: [b.missiles.toString().padStart(2, '0')]. *)
Definition ammoLabel (b : Battery.t) : string :=
  padStart (numberToString (Battery.missiles b)) 2 "0"%char.

(** Reading a string of decimal digits back as a number. *)
Fixpoint decimalValue_aux (s : string) (acc : nat) : option nat :=
  match s with
  | EmptyString => Some acc
  | String c rest =>
    let k := nat_of_ascii c in
    if Nat.leb 48 k && Nat.leb k 57 then decimalValue_aux rest (acc * 10 + (k - 48))
    else None
  end.

Definition decimalValue (s : string) : option nat :=
  match s with EmptyString => None | _ => decimalValue_aux s 0 end.

(** The two-digit label of [n], checked by computation. *)
Definition labelOk (n : nat) : bool :=
  Nat.eqb (String.length (padStart (natToString n) 2 "0"%char)) 2
  && match decimalValue (padStart (natToString n) 2 "0"%char) with
     | Some k => Nat.eqb k n
     | None => false
     end.

(** *** Invariants of the reachable states *)

(** The battery and city layout is kept: identities, positions and
    capacities never change, ammunition stays in range, and the level is
    always 1. *)
Definition layoutInv (w : World) : Prop :=
  map Battery.id (batteries w) = map Battery.id INITIAL_BATTERIES /\
  map Battery.pos (batteries w) = map Battery.pos INITIAL_BATTERIES /\
  map Battery.maxMissiles (batteries w) = map Battery.maxMissiles INITIAL_BATTERIES /\
  Forall ammoOk (batteries w) /\
  map City.id (cities w) = map City.id INITIAL_CITIES /\
  map City.pos (cities w) = map City.pos INITIAL_CITIES /\
  GameState.level (gameState w) = 1%Z.

(** What the enemy loop keeps of the React [gameState]: its level and mode,
    and its score equal to [scoreRef]. *)
Definition gsKept (acc acc' : EnemyAcc) : Prop :=
  let '(_, _, _, gs, s) := acc in
  let '(_, _, _, gs', s') := acc' in
  GameState.level gs' = GameState.level gs /\ GameState.mode gs' = GameState.mode gs /\
  (GameState.score gs = s -> GameState.score gs' = s').

(** The outcomes, in order, of the collision tests of lines 224-235 that the
    enemy loop of lines 184-236 performs: for each active enemy, after its
    move (and the threat blast pushed on arrival), one test per explosion
    of [explosionsRef]. The enemy's position does not change during the
    inner loop, and [hitTest] does not read the enemy's [active] flag. *)
Fixpoint enemyTests (speedScale : R) (es : list Entity.t) (acc : EnemyAcc) : list bool :=
  match es with
  | [] => []
  | e :: rest =>
    let tests :=
      let '(cs, bs, exps, gs, score) := acc in
      if Entity.active e then
        let '(e1, arrived) := kinStep speedScale e in
        map (hitTest e1)
            (if arrived then exps ++ [threatExplosion speedScale e1] else exps)
      else [] in
    tests ++ enemyTests speedScale rest (snd (enemyStep speedScale e acc))
  end.

(** The collision-test outcomes of one frame, as [update] reaches the enemy
    loop; a frame outside PLAYING performs none. *)
Definition frameTests (time : R) (d : Draws) (w : World) : list bool :=
  let last := if Reqb (lastTimeRef w) 0 then time else lastTimeRef w in
  let deltaTime := time - last in
  match GameState.status (gameState w) with
  | PLAYING =>
    let cfg := MODE_CONFIGS (GameState.mode (gameState w)) in
    let speedScale := deltaTime / 16.67 in
    let '(timer, enemies0) :=
      spawnStep cfg (cities w) (batteries w) (scoreRef w) deltaTime d
                (spawnTimerRef w) (enemiesRef w) in
    let '(missiles1, exps1) :=
      updateMissiles cfg speedScale (missilesRef w) (explosionsRef w) in
    enemyTests speedScale enemies0
               (cities w, batteries w, exps1, gameState w, scoreRef w)
  | _ => []
  end.

(** What the scan of [handleCanvasClick] has established after [seen]:
    the battery held is eligible, at the distance held, strictly closer than
    every eligible battery before it and no farther than every eligible
    battery after it. *)
Definition closestFirst (p : Point.t) (seen : list Battery.t)
    (acc : option Battery.t * option R) : Prop :=
  match acc with
  | (None, None) => forall b, In b seen -> eligible b = false
  | (Some b, Some m) =>
      eligible b = true /\ m = Rabs (Point.x (Battery.pos b) - Point.x p) /\
      (exists l1 l2, seen = l1 ++ b :: l2
        /\ (forall b', In b' l1 -> eligible b' = true ->
              m < Rabs (Point.x (Battery.pos b') - Point.x p))
        /\ (forall b', In b' l2 -> eligible b' = true ->
              m <= Rabs (Point.x (Battery.pos b') - Point.x p)))
  | _ => False
  end.

(** [collisionWorld] with an enemy-class (threat) blast in place of the
    player blasts, and a player missile that has already exploded. *)
Definition threatBlast : Explosion.t :=
  Explosion.mk (Point.mk 400 101) 0 20 36 2.4 false ENEMY_MISSILE true.

Definition spentMissile : Entity.t :=
  Entity.mk (Point.mk 400 300) (Point.mk 100 560) (Point.mk 400 300) 7 2
            PLAYER_MISSILE false.

Definition threatWorld : World :=
  {| gameState := GameState.mk 0 1 NORMAL PLAYING;
     batteries := INITIAL_BATTERIES;
     cities := INITIAL_CITIES;
     missilesRef := [spentMissile];
     enemiesRef := [collisionEnemy];
     explosionsRef := [threatBlast];
     lastTimeRef := 1000;
     spawnTimerRef := 0;
     scoreRef := 0%Z |}.

(** * Helper lemmas *)

Lemma Rltb_true (a b : R) : Rltb a b = true <-> a < b.
Proof. unfold Rltb; destruct (Rlt_dec a b); split; intros; auto; discriminate. Qed.

Lemma Rltb_false (a b : R) : Rltb a b = false <-> ~ a < b.
Proof. unfold Rltb; destruct (Rlt_dec a b); split; intros; auto; try discriminate; contradiction. Qed.

Lemma Rleb_true (a b : R) : Rleb a b = true <-> a <= b.
Proof. unfold Rleb; destruct (Rle_dec a b); split; intros; auto; discriminate. Qed.

Lemma Rleb_false (a b : R) : Rleb a b = false <-> ~ a <= b.
Proof. unfold Rleb; destruct (Rle_dec a b); split; intros; auto; try discriminate; contradiction. Qed.

Lemma Reqb_true (a b : R) : Reqb a b = true <-> a = b.
Proof. unfold Reqb; destruct (Req_EM_T a b); split; intros; auto; discriminate. Qed.

Lemma Reqb_false (a b : R) : Reqb a b = false <-> a <> b.
Proof. unfold Reqb; destruct (Req_EM_T a b); split; intros; auto; try discriminate; contradiction. Qed.

Lemma dist_nonneg (dx dy : R) : 0 <= dist dx dy.
Proof. unfold dist; apply sqrt_pos. Qed.

Lemma dist_sq (dx dy : R) : dist dx dy * dist dx dy = dx * dx + dy * dy.
Proof. unfold dist; apply sqrt_sqrt; nra. Qed.

Lemma dist_val (dx dy v : R) : 0 <= v -> dx * dx + dy * dy = v * v -> dist dx dy = v.
Proof. intros Hv Heq; unfold dist; rewrite Heq; apply sqrt_square; exact Hv. Qed.

Lemma dist_zero (dx dy : R) : dx = 0 -> dy = 0 -> dist dx dy = 0.
Proof. intros -> ->; apply dist_val; lra. Qed.

(** Decides the boolean comparisons of concrete numbers in a goal. *)
Ltac decide_R :=
  repeat match goal with
  | |- context [Rltb ?a ?b] =>
      first [ rewrite (proj2 (Rltb_true a b)) by lra
            | rewrite (proj2 (Rltb_false a b)) by lra ]
  | |- context [Rleb ?a ?b] =>
      first [ rewrite (proj2 (Rleb_true a b)) by lra
            | rewrite (proj2 (Rleb_false a b)) by lra ]
  | |- context [Reqb ?a ?b] =>
      first [ rewrite (proj2 (Reqb_true a b)) by lra
            | rewrite (proj2 (Reqb_false a b)) by lra ]
  end.

Lemma spawnInterval_low (s : Z) : (0 <= s <= 1500)%Z -> spawnInterval s = 2000 - IZR s.
Proof.
  intros [Hs1 Hs2]. unfold spawnInterval. apply IZR_le in Hs1, Hs2.
  rewrite Rmax_right; [field | lra].
Qed.

(** Rewrites the first [dist] of the goal to the value [v]. *)
Ltac eval_dist v :=
  match goal with
  | |- context [dist ?a ?b] => rewrite (dist_val a b v) by (try lra; nra)
  end.

(** Rewrites the absolute values of the goal away. *)
Ltac eval_abs :=
  repeat match goal with
  | |- context [Rabs ?a] =>
      first [ rewrite (Rabs_right a) by lra | rewrite (Rabs_left a) by lra ]
  end.

Ltac simpl_entities :=
  cbn [Entity.pos Entity.set_pos Entity.set_active Entity.target Entity.speed
       Entity.active Explosion.pos Explosion.color Explosion.active
       Explosion.radius Point.x Point.y].

(** * Claims *)

(** ** C7 *)

(** C7: whatever the prior state, [startGame mode] yields one and the same
    fresh state: the initial battery and city layout with full ammunition and
    nothing destroyed, score 0, no missiles, enemies or explosions, spawn
    timer 0 and status PLAYING in the chosen mode; hence invoking it twice is
    the same as invoking it once. *)
Theorem startGame_fresh_state (mode : GameMode) (w w' : World) :
  startGame mode w = startGame mode w' /\
  startGame mode (startGame mode w) = startGame mode w /\
  batteries (startGame mode w) = INITIAL_BATTERIES /\
  Forall (fun b => Battery.missiles b = Battery.maxMissiles b
                   /\ Battery.destroyed b = false) (batteries (startGame mode w)) /\
  cities (startGame mode w) = INITIAL_CITIES /\
  Forall (fun c => City.destroyed c = false) (cities (startGame mode w)) /\
  scoreRef (startGame mode w) = 0%Z /\
  GameState.score (gameState (startGame mode w)) = 0%Z /\
  missilesRef (startGame mode w) = [] /\
  enemiesRef (startGame mode w) = [] /\
  explosionsRef (startGame mode w) = [] /\
  spawnTimerRef (startGame mode w) = 0 /\
  GameState.status (gameState (startGame mode w)) = PLAYING /\
  GameState.mode (gameState (startGame mode w)) = mode.
Proof.
  repeat split; try reflexivity; repeat constructor.
Qed.

(** ** C3 *)

Lemma kinStep_arrived (speedScale : R) (m : Entity.t) :
  let dx := Point.x (Entity.target m) - Point.x (Entity.pos m) in
  let dy := Point.y (Entity.target m) - Point.y (Entity.pos m) in
  (dist dx dy <= Entity.speed m * speedScale \/ dist dx dy = 0) ->
  kinStep speedScale m = (Entity.set_active false m, true).
Proof.
  intros dx dy H; unfold kinStep; fold dx dy.
  destruct H as [H | H].
  - rewrite (proj2 (Rleb_true _ _) H); reflexivity.
  - rewrite (proj2 (Reqb_true _ _) H), orb_true_r; reflexivity.
Qed.

Lemma kinStep_moves (speedScale : R) (m : Entity.t) :
  let dx := Point.x (Entity.target m) - Point.x (Entity.pos m) in
  let dy := Point.y (Entity.target m) - Point.y (Entity.pos m) in
  let d := dist dx dy in
  let moveDist := Entity.speed m * speedScale in
  ~ (d <= moveDist \/ d = 0) ->
  kinStep speedScale m =
    (Entity.set_pos (Point.mk (Point.x (Entity.pos m) + (dx / d) * moveDist)
                              (Point.y (Entity.pos m) + (dy / d) * moveDist)) m,
     false).
Proof.
  intros dx dy d moveDist H; unfold kinStep; fold dx dy d moveDist.
  rewrite (proj2 (Rleb_false _ _) (fun h => H (or_introl h))).
  rewrite (proj2 (Reqb_false _ _) (fun h => H (or_intror h))).
  reflexivity.
Qed.

(** Moving [moveDist] along the unit vector towards the target leaves the
    entity exactly [d - moveDist] away from it. *)
Lemma step_towards_distance (px py tx ty md : R) :
  let d := dist (tx - px) (ty - py) in
  md < d -> d <> 0 ->
  dist (tx - (px + ((tx - px) / d) * md)) (ty - (py + ((ty - py) / d) * md))
  = d - md.
Proof.
  intros d Hlt Hne.
  assert (Hd : 0 < d) by (pose proof (dist_nonneg (tx - px) (ty - py)); fold d in H; lra).
  assert (Hsq : d * d = (tx - px) * (tx - px) + (ty - py) * (ty - py)) by apply dist_sq.
  apply dist_val; [lra |].
  replace (tx - (px + (tx - px) / d * md)) with ((tx - px) * ((d - md) / d)) by (field; lra).
  replace (ty - (py + (ty - py) / d * md)) with ((ty - py) * ((d - md) / d)) by (field; lra).
  transitivity ((d * d) * ((d - md) / d) * ((d - md) / d)); [rewrite Hsq; ring | field; lra].
Qed.

Lemma updateMissiles_fst (cfg : ModeConfig) (speedScale : R) (ms : list Entity.t)
    (exps : list Explosion.t) :
  fst (updateMissiles cfg speedScale ms exps) =
  map (fun m => if Entity.active m then fst (kinStep speedScale m) else m) ms.
Proof.
  revert exps; induction ms as [| m rest IH]; intros exps; [reflexivity |].
  simpl. destruct (Entity.active m).
  - destruct (kinStep speedScale m) as [m' arrived] eqn:Hk.
    set (exps' := if arrived then _ else _).
    specialize (IH exps'); destruct (updateMissiles cfg speedScale rest exps') as [r e].
    simpl in *; congruence.
  - specialize (IH exps); destruct (updateMissiles cfg speedScale rest exps) as [r e].
    simpl in *; congruence.
Qed.

Lemma checkCollisions_pos (e : Entity.t) (exps : list Explosion.t) (gs : GameState.t) (s : Z) :
  Entity.pos (fst (fst (checkCollisions e exps gs s))) = Entity.pos e.
Proof.
  revert e gs s; induction exps as [| x rest IH]; intros e gs s; [reflexivity |].
  simpl. destruct (hitTest e x); rewrite IH; reflexivity.
Qed.

Lemma updateEnemies_pos (speedScale : R) (es : list Entity.t) (acc : EnemyAcc) :
  map Entity.pos (fst (updateEnemies speedScale es acc)) =
  map (fun e => if Entity.active e then Entity.pos (fst (kinStep speedScale e))
                else Entity.pos e) es.
Proof.
  revert acc; induction es as [| e rest IH]; intros acc; [reflexivity |].
  simpl. destruct (enemyStep speedScale e acc) as [e' acc'] eqn:Hs.
  specialize (IH acc'); destruct (updateEnemies speedScale rest acc') as [r a].
  simpl in *. rewrite IH. f_equal.
  unfold enemyStep in Hs. destruct acc as [[[[cs bs] exps] gs] s].
  destruct (Entity.active e); simpl in Hs.
  - destruct (kinStep speedScale e) as [e1 arrived].
    destruct arrived;
      match type of Hs with
      | context [checkCollisions e1 ?l gs s] =>
          pose proof (checkCollisions_pos e1 l gs s) as Hp;
          destruct (checkCollisions e1 l gs s) as [[e2 gs2] s2]
      end;
      inversion Hs; subst; exact Hp.
  - inversion Hs; reflexivity.
Qed.

(** C3: one kinematics step with frame delta [deltaTimeMs] uses
    [moveDistance = speed * (deltaTimeMs / 16.67)] and
    [distance = |target - pos|]: if [distance <= moveDistance] or
    [distance = 0] the entity is deactivated and keeps its position (so an
    entity whose position is its target arrives on its first step);
    otherwise it advances by [(direction / distance) * moveDistance], which
    leaves it exactly [distance - moveDistance] from the target on the
    straight line. The missile and enemy loops apply this step to every
    active entity. *)
Theorem kinematics_step (deltaTimeMs : R) (m : Entity.t) :
  let speedScale := deltaTimeMs / 16.67 in
  let dx := Point.x (Entity.target m) - Point.x (Entity.pos m) in
  let dy := Point.y (Entity.target m) - Point.y (Entity.pos m) in
  let distance := dist dx dy in
  let moveDistance := Entity.speed m * speedScale in
  ((distance <= moveDistance \/ distance = 0) ->
     kinStep speedScale m = (Entity.set_active false m, true)
     /\ Entity.pos (fst (kinStep speedScale m)) = Entity.pos m) /\
  (~ (distance <= moveDistance \/ distance = 0) ->
     kinStep speedScale m =
       (Entity.set_pos (Point.mk (Point.x (Entity.pos m) + (dx / distance) * moveDistance)
                                 (Point.y (Entity.pos m) + (dy / distance) * moveDistance)) m,
        false)
     /\ dist (Point.x (Entity.target m) - (Point.x (Entity.pos m) + (dx / distance) * moveDistance))
             (Point.y (Entity.target m) - (Point.y (Entity.pos m) + (dy / distance) * moveDistance))
        = distance - moveDistance) /\
  (Entity.pos m = Entity.target m ->
     kinStep speedScale m = (Entity.set_active false m, true)) /\
  (forall cfg ms exps,
     fst (updateMissiles cfg speedScale ms exps) =
     map (fun m => if Entity.active m then fst (kinStep speedScale m) else m) ms) /\
  (forall es acc,
     map Entity.pos (fst (updateEnemies speedScale es acc)) =
     map (fun e => if Entity.active e then Entity.pos (fst (kinStep speedScale e))
                   else Entity.pos e) es).
Proof.
  intros speedScale dx dy distance moveDistance.
  split; [| split; [| split; [| split]]].
  - intros H. rewrite (kinStep_arrived speedScale m H). split; reflexivity.
  - intros H. split; [apply (kinStep_moves speedScale m H) |].
    apply step_towards_distance; [| intros h; apply H; right; exact h].
    apply Rnot_le_lt; intros h; apply H; left; exact h.
  - intros Hpt. apply kinStep_arrived. right.
    unfold distance, dx, dy; rewrite Hpt; apply dist_zero; ring.
  - intros; apply updateMissiles_fst.
  - intros; apply updateEnemies_pos.
Qed.

(** ** Lemmas on the enemy loop *)

Lemma Forall2_refl_in {A : Type} (P : A -> A -> Prop) (l : list A) :
  (forall a, P a a) -> Forall2 P l l.
Proof. intros H; induction l; constructor; auto. Qed.

Lemma Forall2_trans_in {A : Type} (P : A -> A -> Prop) (l1 l2 l3 : list A) :
  (forall a b c, P a b -> P b c -> P a c) ->
  Forall2 P l1 l2 -> Forall2 P l2 l3 -> Forall2 P l1 l3.
Proof.
  intros Ht H12; revert l3; induction H12; intros l3 H23; inversion H23; subst;
    constructor; eauto.
Qed.

Lemma Forall2_map_r {A : Type} (P : A -> A -> Prop) (f : A -> A) (l : list A) :
  (forall a, P a (f a)) -> Forall2 P l (map f l).
Proof. intros H; induction l; constructor; auto. Qed.

Lemma cityKept_refl (c : City.t) : cityKept c c.
Proof. unfold cityKept; auto. Qed.

Lemma cityKept_trans (a b c : City.t) : cityKept a b -> cityKept b c -> cityKept a c.
Proof. unfold cityKept; intuition congruence. Qed.

Lemma batteryKept_refl (b : Battery.t) : batteryKept b b.
Proof. unfold batteryKept; auto 6. Qed.

Lemma batteryKept_trans (a b c : Battery.t) :
  batteryKept a b -> batteryKept b c -> batteryKept a c.
Proof. unfold batteryKept; intuition congruence. Qed.

Lemma impactCity_destroyed (p : Point.t) (c : City.t) :
  City.destroyed (impactCity p c) = true <->
  City.destroyed c = true
  \/ (Rabs (Point.x (City.pos c) - Point.x p) < 25
      /\ Rabs (Point.y (City.pos c) - Point.y p) < 25).
Proof.
  unfold impactCity.
  destruct (Rltb (Rabs (Point.x (City.pos c) - Point.x p)) 25) eqn:H1;
  destruct (Rltb (Rabs (Point.y (City.pos c) - Point.y p)) 25) eqn:H2;
  simpl; rewrite ?Rltb_true, ?Rltb_false in *; intuition.
Qed.

Lemma impactBattery_destroyed (p : Point.t) (b : Battery.t) :
  Battery.destroyed (impactBattery p b) = true <->
  Battery.destroyed b = true
  \/ (Rabs (Point.x (Battery.pos b) - Point.x p) < 35
      /\ Rabs (Point.y (Battery.pos b) - Point.y p) < 35).
Proof.
  unfold impactBattery.
  destruct (Rltb (Rabs (Point.x (Battery.pos b) - Point.x p)) 35) eqn:H1;
  destruct (Rltb (Rabs (Point.y (Battery.pos b) - Point.y p)) 35) eqn:H2;
  simpl; rewrite ?Rltb_true, ?Rltb_false in *; intuition.
Qed.

Lemma impactCity_kept (p : Point.t) (c : City.t) : cityKept c (impactCity p c).
Proof.
  unfold cityKept. split; [| split]; [unfold impactCity; destruct (_ && _); reflexivity ..|].
  intros H; apply impactCity_destroyed; auto.
Qed.

Lemma impactBattery_kept (p : Point.t) (b : Battery.t) : batteryKept b (impactBattery p b).
Proof.
  unfold batteryKept.
  repeat split; try (unfold impactBattery; destruct (_ && _); reflexivity).
  intros H; apply impactBattery_destroyed; auto.
Qed.

Lemma checkCollisions_score (e : Entity.t) (exps : list Explosion.t)
    (gs : GameState.t) (s : Z) :
  snd (checkCollisions e exps gs s) = (s + 20 * Z.of_nat (hits e exps))%Z.
Proof.
  unfold hits; revert e gs s; induction exps as [| x rest IH]; intros e gs s.
  - simpl; lia.
  - cbn [checkCollisions filter]. destruct (hitTest e x) eqn:Hh.
    + rewrite IH. change (hitTest (Entity.set_active false e)) with (hitTest e).
      cbn [List.length]. rewrite Nat2Z.inj_succ. lia.
    + rewrite IH; reflexivity.
Qed.

Lemma checkCollisions_status (e : Entity.t) (exps : list Explosion.t)
    (gs : GameState.t) (s : Z) :
  GameState.status (snd (fst (checkCollisions e exps gs s))) = GameState.status gs.
Proof.
  revert e gs s; induction exps as [| x rest IH]; intros e gs s; [reflexivity |].
  simpl. destruct (hitTest e x); rewrite IH; reflexivity.
Qed.


Lemma accStep_refl (speedScale : R) (acc : EnemyAcc) : accStep speedScale acc acc.
Proof.
  destruct acc as [[[[cs bs] exps] gs] s]; cbn beta iota zeta delta [accStep].
  split; [apply Forall2_refl_in, cityKept_refl |].
  split; [apply Forall2_refl_in, batteryKept_refl |].
  split; [exists []; rewrite app_nil_r; auto |].
  split; [exists 0%nat; lia | reflexivity].
Qed.

Lemma accStep_trans (speedScale : R) (a1 a2 a3 : EnemyAcc) :
  accStep speedScale a1 a2 -> accStep speedScale a2 a3 -> accStep speedScale a1 a3.
Proof.
  destruct a1 as [[[[cs1 bs1] exps1] gs1] s1].
  destruct a2 as [[[[cs2 bs2] exps2] gs2] s2].
  destruct a3 as [[[[cs3 bs3] exps3] gs3] s3]; cbn beta iota zeta delta [accStep].
  intros (Hc1 & Hb1 & (l1 & He1 & Hf1 & Hn1) & (k1 & Hk1) & Hs1)
         (Hc2 & Hb2 & (l2 & He2 & Hf2 & Hn2) & (k2 & Hk2) & Hs2).
  split; [eapply Forall2_trans_in; [apply cityKept_trans | eassumption | eassumption] |].
  split; [eapply Forall2_trans_in; [apply batteryKept_trans | eassumption | eassumption] |].
  split.
  - exists (l1 ++ l2). split; [subst; rewrite app_assoc; reflexivity |].
    split; [apply Forall_app; auto |].
    intros Hnil; apply app_eq_nil in Hnil as [-> ->].
    destruct (Hn1 eq_refl), (Hn2 eq_refl); split; congruence.
  - split; [exists (k1 + k2)%nat; rewrite Nat2Z.inj_add; lia | congruence].
Qed.

Lemma enemyStep_acc (speedScale : R) (e : Entity.t) (acc : EnemyAcc) :
  accStep speedScale acc (snd (enemyStep speedScale e acc)).
Proof.
  destruct acc as [[[[cs bs] exps] gs] s].
  unfold enemyStep. destruct (Entity.active e); [| apply accStep_refl].
  simpl negb; cbv iota.
  destruct (kinStep speedScale e) as [e1 arrived].
  destruct arrived;
    match goal with
    | |- context [checkCollisions e1 ?l gs s] =>
        pose proof (checkCollisions_score e1 l gs s) as Hsc;
        pose proof (checkCollisions_status e1 l gs s) as Hst;
        destruct (checkCollisions e1 l gs s) as [[e2 gs2] s2]
    end; cbn [fst snd] in Hsc, Hst |- *; cbn beta iota zeta delta [accStep].
  - split; [apply Forall2_map_r, impactCity_kept |].
    split; [apply Forall2_map_r, impactBattery_kept |].
    split; [exists [threatExplosion speedScale e1]; split; [reflexivity |];
            split; [repeat constructor; eauto | discriminate] |].
    split; [eexists; exact Hsc | exact Hst].
  - split; [apply Forall2_refl_in, cityKept_refl |].
    split; [apply Forall2_refl_in, batteryKept_refl |].
    split; [exists []; rewrite app_nil_r; auto |].
    split; [eexists; exact Hsc | exact Hst].
Qed.

Lemma updateEnemies_acc (speedScale : R) (es : list Entity.t) (acc : EnemyAcc) :
  accStep speedScale acc (snd (updateEnemies speedScale es acc)).
Proof.
  revert acc; induction es as [| e rest IH]; intros acc; [apply accStep_refl |].
  simpl. pose proof (enemyStep_acc speedScale e acc) as H1.
  destruct (enemyStep speedScale e acc) as [e' acc'].
  specialize (IH acc'). destruct (updateEnemies speedScale rest acc') as [r acc''].
  simpl in *. eapply accStep_trans; eassumption.
Qed.

(** ** Frame-level lemmas *)

Lemma update_kept (time : R) (d : Draws) (w : World) :
  Forall2 cityKept (cities w) (cities (update time d w)) /\
  Forall2 batteryKept (batteries w) (batteries (update time d w)).
Proof.
  unfold update.
  destruct (GameState.status (gameState w));
    try (split; [apply Forall2_refl_in, cityKept_refl | apply Forall2_refl_in, batteryKept_refl]).
  destruct (spawnStep _ _ _ _ _ _ _ _) as [timer enemies0].
  destruct (updateMissiles _ _ _ _) as [missiles1 exps1].
  match goal with
  | |- context [updateEnemies ?ss ?es ?acc] =>
      pose proof (updateEnemies_acc ss es acc) as Hacc;
      destruct (updateEnemies ss es acc) as [enemies1 [[[[cs bs] exps2] gs] s]]
  end.
  cbn beta iota zeta delta [accStep snd] in Hacc.
  destruct Hacc as (Hc & Hb & _); split; assumption.
Qed.

(** ** C6 *)

Lemma enemyStep_arrival (speedScale : R) (e : Entity.t) (cs : list City.t)
    (bs : list Battery.t) (exps : list Explosion.t) (gs : GameState.t) (s : Z) :
  Entity.active e = true -> snd (kinStep speedScale e) = true ->
  exists gs' s',
    snd (enemyStep speedScale e (cs, bs, exps, gs, s)) =
    (map (impactCity (Entity.pos e)) cs, map (impactBattery (Entity.pos e)) bs,
     exps ++ [threatExplosion speedScale (Entity.set_active false e)], gs', s').
Proof.
  intros Ha Hk. unfold enemyStep. rewrite Ha. cbv iota beta.
  destruct (kinStep speedScale e) as [e1 arrived] eqn:Hkin. simpl in Hk; subst arrived.
  assert (He1 : e1 = Entity.set_active false e).
  { unfold kinStep in Hkin.
    destruct (_ || _) eqn:Hc in Hkin; inversion Hkin; reflexivity. }
  subst e1. cbv iota beta.
  destruct (checkCollisions _ _ gs s) as [[e2 gs2] s2].
  exists gs2, s2; reflexivity.
Qed.

(** C6: on a threat's arrival its impact point (its position) is tested
    against every structure and every battery with an axis-aligned test: a
    structure ends up destroyed exactly when it was destroyed already or
    [|dx| < 25] and [|dy| < 25], a battery likewise with 35; several may be
    destroyed by one impact, and no frame and no launch ever clears a
    [destroyed] flag. *)
Theorem ground_impact_resolution (p : Point.t) (c : City.t) (b : Battery.t) :
  (City.destroyed (impactCity p c) = true <->
     City.destroyed c = true
     \/ (Rabs (Point.x (City.pos c) - Point.x p) < 25
         /\ Rabs (Point.y (City.pos c) - Point.y p) < 25)) /\
  (Battery.destroyed (impactBattery p b) = true <->
     Battery.destroyed b = true
     \/ (Rabs (Point.x (Battery.pos b) - Point.x p) < 35
         /\ Rabs (Point.y (Battery.pos b) - Point.y p) < 35)) /\
  (forall speedScale e cs bs exps gs s,
     Entity.active e = true -> snd (kinStep speedScale e) = true ->
     exists gs' s',
       snd (enemyStep speedScale e (cs, bs, exps, gs, s)) =
       (map (impactCity (Entity.pos e)) cs, map (impactBattery (Entity.pos e)) bs,
        exps ++ [threatExplosion speedScale (Entity.set_active false e)], gs', s')) /\
  (forall time d w,
     Forall2 (fun c c' => City.destroyed c = true -> City.destroyed c' = true)
             (cities w) (cities (update time d w)) /\
     Forall2 (fun b b' => Battery.destroyed b = true -> Battery.destroyed b' = true)
             (batteries w) (batteries (update time d w))) /\
  (forall q w,
     cities (handleCanvasClick q w) = cities w /\
     Forall2 (fun b b' => Battery.destroyed b' = Battery.destroyed b)
             (batteries w) (batteries (handleCanvasClick q w))).
Proof.
  split; [apply impactCity_destroyed |].
  split; [apply impactBattery_destroyed |].
  split; [intros; apply enemyStep_arrival; assumption |].
  split.
  - intros time d w. destruct (update_kept time d w) as [Hc Hb]. split.
    + eapply Forall2_impl; [| exact Hc]. intros x y (_ & _ & H); exact H.
    + eapply Forall2_impl; [| exact Hb]. intros x y (_ & _ & _ & _ & H); exact H.
  - intros q w. unfold handleCanvasClick.
    destruct (GameState.status (gameState w));
      try (split; [reflexivity | apply Forall2_refl_in; reflexivity]).
    destruct (closestBattery (batteries w) q) as [bb |];
      [| split; [reflexivity | apply Forall2_refl_in; reflexivity]].
    split; [reflexivity |]. simpl.
    apply Forall2_map_r. intros a; unfold decrementAmmo.
    destruct (String.eqb _ _); reflexivity.
Qed.

Lemma checkCollisions_gs (e : Entity.t) (exps : list Explosion.t) (gs : GameState.t) (s : Z) :
  GameState.level (snd (fst (checkCollisions e exps gs s))) = GameState.level gs /\
  GameState.mode (snd (fst (checkCollisions e exps gs s))) = GameState.mode gs /\
  (GameState.score gs = s ->
   GameState.score (snd (fst (checkCollisions e exps gs s))) = snd (checkCollisions e exps gs s)).
Proof.
  revert e gs s; induction exps as [| x rest IH]; intros e gs s; [simpl; auto |].
  simpl. destruct (hitTest e x).
  - destruct (IH (Entity.set_active false e) (GameState.set_score (s + 20) gs) (s + 20)%Z)
      as (H1 & H2 & H3).
    split; [exact H1 | split; [exact H2 |]]. intros _. apply H3. reflexivity.
  - apply IH.
Qed.

Lemma gsKept_refl (acc : EnemyAcc) : gsKept acc acc.
Proof.
  destruct acc as [[[[cs bs] exps] gs] s]; cbn beta iota zeta delta [gsKept]; auto.
Qed.

Lemma gsKept_trans (a1 a2 a3 : EnemyAcc) : gsKept a1 a2 -> gsKept a2 a3 -> gsKept a1 a3.
Proof.
  destruct a1 as [[[[cs1 bs1] exps1] gs1] s1].
  destruct a2 as [[[[cs2 bs2] exps2] gs2] s2].
  destruct a3 as [[[[cs3 bs3] exps3] gs3] s3]; cbn beta iota zeta delta [gsKept].
  intros (H1 & H2 & H3) (H4 & H5 & H6).
  split; [congruence | split; [congruence | auto]].
Qed.

Lemma enemyStep_gs (speedScale : R) (e : Entity.t) (acc : EnemyAcc) :
  gsKept acc (snd (enemyStep speedScale e acc)).
Proof.
  destruct acc as [[[[cs bs] exps] gs] s].
  unfold enemyStep. destruct (Entity.active e); [| apply gsKept_refl].
  simpl negb; cbv iota.
  destruct (kinStep speedScale e) as [e1 arrived].
  destruct arrived;
    match goal with
    | |- context [checkCollisions e1 ?l gs s] =>
        pose proof (checkCollisions_gs e1 l gs s) as Hg;
        destruct (checkCollisions e1 l gs s) as [[e2 gs2] s2]
    end; cbn [fst snd] in Hg |- *; cbn beta iota zeta delta [gsKept]; exact Hg.
Qed.

Lemma updateEnemies_gs (speedScale : R) (es : list Entity.t) (acc : EnemyAcc) :
  gsKept acc (snd (updateEnemies speedScale es acc)).
Proof.
  revert acc; induction es as [| e rest IH]; intros acc; [apply gsKept_refl |].
  simpl. pose proof (enemyStep_gs speedScale e acc) as H1.
  destruct (enemyStep speedScale e acc) as [e' acc'].
  specialize (IH acc'). destruct (updateEnemies speedScale rest acc') as [r acc''].
  simpl in *. eapply gsKept_trans; eassumption.
Qed.

Lemma update_gs (time : R) (d : Draws) (w : World) :
  GameState.level (gameState (update time d w)) = GameState.level (gameState w) /\
  GameState.mode (gameState (update time d w)) = GameState.mode (gameState w) /\
  (GameState.score (gameState w) = scoreRef w ->
   GameState.score (gameState (update time d w)) = scoreRef (update time d w)).
Proof.
  unfold update.
  destruct (GameState.status (gameState w));
    try (split; [reflexivity | split; [reflexivity | intros H; exact H]]).
  destruct (spawnStep _ _ _ _ _ _ _ _) as [timer enemies0].
  destruct (updateMissiles _ _ _ _) as [missiles1 exps1].
  match goal with
  | |- context [updateEnemies ?ss ?es ?acc] =>
      pose proof (updateEnemies_gs ss es acc) as Hg;
      destruct (updateEnemies ss es acc) as [enemies1 [[[[cs bs] exps2] gs] s]]
  end.
  cbn beta iota zeta delta [gsKept snd] in Hg. exact Hg.
Qed.

(** ** C8 *)

Lemma filter_id_map {A : Type} (f : A -> bool) (l : list A) :
  List.length (filter (fun t => t) (map f l)) = List.length (filter f l).
Proof. induction l as [| a l IH]; simpl; [reflexivity |]. destruct (f a); simpl; auto. Qed.

Lemma filter_id_In (l : list bool) :
  List.length (filter (fun t => t) l) <> 0%nat -> In true l.
Proof. induction l as [| [|] l IH]; simpl; auto. Qed.

Lemma updateEnemies_score_tests (speedScale : R) (es : list Entity.t) (acc : EnemyAcc) :
  snd (snd (updateEnemies speedScale es acc)) =
  (snd acc + 20 * Z.of_nat (List.length (filter (fun t => t) (enemyTests speedScale es acc))))%Z.
Proof.
  revert acc; induction es as [| e rest IH]; intros acc; [simpl; lia |].
  destruct acc as [[[[cs bs] exps] gs] s].
  cbn [updateEnemies enemyTests]. rewrite filter_app, length_app.
  pose proof (IH (snd (enemyStep speedScale e (cs, bs, exps, gs, s)))) as IH'.
  destruct (enemyStep speedScale e (cs, bs, exps, gs, s)) as [e' acc'] eqn:Hs.
  cbn [snd] in IH' |- *.
  destruct (updateEnemies speedScale rest acc') as [r acc''].
  cbn [snd] in IH' |- *. rewrite IH'.
  unfold enemyStep in Hs.
  destruct (Entity.active e); simpl in Hs.
  - destruct (kinStep speedScale e) as [e1 arrived].
    destruct arrived;
      match type of Hs with
      | context [checkCollisions e1 ?l gs s] =>
          pose proof (checkCollisions_score e1 l gs s) as Hc;
          destruct (checkCollisions e1 l gs s) as [[e2 gs2] s2]
      end;
      inversion Hs; subst; cbv beta iota zeta; cbn [snd] in Hc |- *;
      rewrite filter_id_map; unfold hits in Hc; lia.
  - inversion Hs; subst. cbn. lia.
Qed.

Lemma update_score_tests (time : R) (d : Draws) (w : World) :
  scoreRef (update time d w) =
  (scoreRef w + 20 * Z.of_nat (List.length (filter (fun t => t) (frameTests time d w))))%Z.
Proof.
  unfold update, frameTests. cbv zeta.
  destruct (GameState.status (gameState w)); try (simpl; lia).
  destruct (spawnStep _ _ _ _ _ _ _ _) as [timer enemies0].
  destruct (updateMissiles _ _ _ _) as [missiles1 exps1].
  match goal with
  | |- context [updateEnemies ?ss ?es ?acc] =>
      pose proof (updateEnemies_score_tests ss es acc) as Hs;
      destruct (updateEnemies ss es acc) as [enemies1 [[[[cs bs] exps2] gs] s]]
  end.
  cbn [snd scoreRef] in Hs |- *. exact Hs.
Qed.

(** C8: every successful threat-versus-player-blast collision test adds
    exactly 20 to the score; over a frame the score grows by exactly 20
    times the number of collision tests of the frame that succeeded
    ([frameTests]), so it changes only if one of them succeeded and never
    decreases; the displayed score follows [scoreRef]; a launch leaves the
    score unchanged. *)
Theorem score_increments (time : R) (d : Draws) (w : World) :
  (forall e exps gs s,
     snd (checkCollisions e exps gs s) = (s + 20 * Z.of_nat (hits e exps))%Z) /\
  scoreRef (update time d w) =
    (scoreRef w + 20 * Z.of_nat (List.length (filter (fun t => t) (frameTests time d w))))%Z /\
  (scoreRef (update time d w) <> scoreRef w -> In true (frameTests time d w)) /\
  (scoreRef w <= scoreRef (update time d w))%Z /\
  (GameState.score (gameState w) = scoreRef w ->
   GameState.score (gameState (update time d w)) = scoreRef (update time d w)) /\
  (forall p, scoreRef (handleCanvasClick p w) = scoreRef w).
Proof.
  pose proof (update_score_tests time d w) as Hs.
  split; [apply checkCollisions_score |].
  split; [exact Hs |].
  split; [intros Hne; apply filter_id_In; intros H0; rewrite H0 in Hs; lia |].
  split; [lia |].
  split; [apply update_gs |].
  intros p; unfold handleCanvasClick.
  destruct (GameState.status (gameState w)); try reflexivity.
  destruct (closestBattery (batteries w) p); reflexivity.
Qed.

(** ** C4 *)

Lemma filter_active_all {A : Type} (f : A -> bool) (l : list A) :
  Forall (fun x => f x = true) (filter f l).
Proof.
  apply Forall_forall; intros x Hx; apply filter_In in Hx; tauto.
Qed.

Lemma all_inactive_nil {A : Type} (f : A -> bool) (l : list A) :
  Forall (fun x => f x = true) l ->
  (Forall (fun x => f x = false) l <-> l = []).
Proof.
  intros H; split; [| intros ->; constructor].
  destruct l as [| a l]; [reflexivity |].
  intros H'; inversion H; inversion H'; congruence.
Qed.

Lemma no_active_battery (bs : list Battery.t) :
  Nat.eqb (List.length (filter (fun b => negb (Battery.destroyed b)) bs)) 0 = true <->
  Forall (fun b => Battery.destroyed b = true) bs.
Proof.
  rewrite Nat.eqb_eq, length_zero_iff_nil; induction bs as [| b bs IH]; simpl.
  - split; constructor.
  - destruct (Battery.destroyed b) eqn:Hd; simpl.
    + rewrite IH; split; [intros H; constructor; auto | intros H; inversion H; auto].
    + split; [discriminate | intros H; inversion H; congruence].
Qed.

Lemma destroyed_kept (bs bs' : list Battery.t) :
  Forall2 batteryKept bs bs' ->
  Forall (fun b => Battery.destroyed b = true) bs ->
  Forall (fun b => Battery.destroyed b = true) bs'.
Proof.
  intros H; induction H as [| b b' l l' Hk _ IH]; intros Hf; constructor;
    inversion Hf; subst; [apply Hk; assumption | auto].
Qed.

Lemma threatExplosion_survives_step (speedScale : R) (e : Entity.t) :
  Explosion.active (explosionStep (threatExplosion speedScale e)) = true.
Proof.
  unfold explosionStep; simpl.
  destruct (Rleb _ _); reflexivity.
Qed.

Lemma filter_step_nonempty (speedScale : R) (e0 : Entity.t) (exps l : list Explosion.t) :
  filter Explosion.active
         (map explosionStep (exps ++ threatExplosion speedScale e0 :: l)) <> [].
Proof.
  intros Hempty.
  assert (Hin : In (explosionStep (threatExplosion speedScale e0))
                   (filter Explosion.active
                           (map explosionStep (exps ++ threatExplosion speedScale e0 :: l)))).
  { apply filter_In; split; [apply in_map, in_or_app; right; left; reflexivity |].
    apply threatExplosion_survives_step. }
  rewrite Hempty in Hin; contradiction.
Qed.

(** The status at the end of a PLAYING frame, with what the check reads. *)
Lemma update_end (time : R) (d : Draws) (w : World) :
  GameState.status (gameState w) = PLAYING ->
  let w' := update time d w in
  GameState.status (gameState w') =
    endCheck (scoreRef w') (batteries w) (enemiesRef w') (explosionsRef w') PLAYING /\
  Forall (fun e => Entity.active e = true) (enemiesRef w') /\
  Forall (fun x => Explosion.active x = true) (explosionsRef w') /\
  Forall2 batteryKept (batteries w) (batteries w') /\
  (explosionsRef w' = [] -> batteries w' = batteries w).
Proof.
  intros Hst. unfold update. rewrite Hst.
  destruct (spawnStep _ _ _ _ _ _ _ _) as [timer enemies0].
  destruct (updateMissiles _ _ _ _) as [missiles1 exps1].
  match goal with
  | |- context [updateEnemies ?ss ?es ?acc] =>
      pose proof (updateEnemies_acc ss es acc) as Hacc;
      destruct (updateEnemies ss es acc) as [enemies1 [[[[cs bs] exps2] gs] s]]
  end.
  cbn beta iota zeta delta [accStep snd] in Hacc.
  destruct Hacc as (_ & Hb & (l & Hl & Hfl & Hnil) & _ & Hgs).
  cbn zeta. cbn [gameState scoreRef batteries enemiesRef explosionsRef GameState.set_status GameState.status].
  split; [rewrite Hgs, Hst; reflexivity |].
  split; [apply filter_active_all |].
  split; [apply filter_active_all |].
  split; [exact Hb |].
  intros Hempty. destruct l as [| x l].
  - destruct (Hnil eq_refl); assumption.
  - exfalso. inversion Hfl as [| ? ? [e0 Hx] _]; subst.
    revert Hempty. apply filter_step_nonempty.
Qed.

(** C4: at the end of a PLAYING frame the status becomes WON exactly when
    [score >= 1000]; otherwise it becomes LOST exactly when every battery is
    destroyed, no active threat and no active explosion remain; otherwise it
    stays PLAYING. WON wins when both hold, and an active explosion keeps a
    non-winning game in PLAYING. *)
Theorem end_of_frame_status (time : R) (d : Draws) (w : World) :
  GameState.status (gameState w) = PLAYING ->
  let w' := update time d w in
  let won := (WIN_SCORE <= scoreRef w')%Z in
  let lost := Forall (fun b => Battery.destroyed b = true) (batteries w')
              /\ Forall (fun e => Entity.active e = false) (enemiesRef w')
              /\ Forall (fun x => Explosion.active x = false) (explosionsRef w') in
  (GameState.status (gameState w') = WON <-> won) /\
  (GameState.status (gameState w') = LOST <-> ~ won /\ lost) /\
  (GameState.status (gameState w') = PLAYING <-> ~ won /\ ~ lost) /\
  (Exists (fun x => Explosion.active x = true) (explosionsRef w') -> ~ won ->
   GameState.status (gameState w') = PLAYING).
Proof.
  intros Hst w' won lost.
  destruct (update_end time d w Hst) as (Hs & Hen & Hex & Hb & Hsame).
  fold w' in Hs, Hen, Hex, Hb, Hsame.
  assert (Hli : lost <-> Forall (fun b => Battery.destroyed b = true) (batteries w')
                        /\ enemiesRef w' = [] /\ explosionsRef w' = [])
    by (unfold lost; rewrite (all_inactive_nil _ _ Hen), (all_inactive_nil _ _ Hex); tauto).
  unfold endCheck in Hs.
  destruct (WIN_SCORE <=? scoreRef w')%Z eqn:Hw.
  - apply Z.leb_le in Hw. rewrite Hs.
    split; [split; [intros _; exact Hw | reflexivity] |].
    split; [split; [discriminate | intros [Hn _]; contradiction] |].
    split; [split; [discriminate | intros [Hn _]; contradiction] |].
    intros _ Hn; contradiction.
  - assert (Hnw : ~ won) by (unfold won; apply Z.leb_gt in Hw; lia).
    destruct (Nat.eqb _ 0 && Nat.eqb (List.length (enemiesRef w')) 0
              && Nat.eqb (List.length (explosionsRef w')) 0) eqn:Hl; rewrite Hs.
    + apply andb_true_iff in Hl as [Hl Hx]; apply andb_true_iff in Hl as [Hl He].
      apply Nat.eqb_eq, length_zero_iff_nil in He, Hx.
      apply no_active_battery in Hl.
      assert (Hlost : lost)
        by (apply Hli; split; [eapply destroyed_kept; eassumption | split; assumption]).
      split; [split; [discriminate | intros Hn; contradiction] |].
      split; [split; [intros _; split; assumption | intros _; reflexivity] |].
      split; [split; [discriminate | intros [_ Hn]; contradiction] |].
      intros Hex'; rewrite Hx in Hex'; inversion Hex'.
    + assert (Hnl : ~ lost).
      { intros Hlost; apply Hli in Hlost as (Hd & He & Hx). rewrite (Hsame Hx) in Hd.
        apply no_active_battery in Hd. rewrite Hd, He, Hx in Hl. discriminate. }
      split; [split; [discriminate | intros Hn; contradiction] |].
      split; [split; [discriminate | intros [_ Hn]; contradiction] |].
      split; [split; [intros _; split; assumption | reflexivity] |].
      intros _ _; reflexivity.
Qed.

(** Witness for C4, on the first frame of a fresh game. *)
Lemma end_of_frame_status_witness :
  GameState.status (gameState demoWorld) = PLAYING /\
  (let w' := update 16 zeroDraws demoWorld in
   let won := (WIN_SCORE <= scoreRef w')%Z in
   let lost := Forall (fun b => Battery.destroyed b = true) (batteries w')
               /\ Forall (fun e => Entity.active e = false) (enemiesRef w')
               /\ Forall (fun x => Explosion.active x = false) (explosionsRef w') in
   (GameState.status (gameState w') = WON <-> won) /\
   (GameState.status (gameState w') = LOST <-> ~ won /\ lost) /\
   (GameState.status (gameState w') = PLAYING <-> ~ won /\ ~ lost) /\
   (Exists (fun x => Explosion.active x = true) (explosionsRef w') -> ~ won ->
    GameState.status (gameState w') = PLAYING)).
Proof.
  split; [reflexivity | apply (end_of_frame_status 16 zeroDraws demoWorld); reflexivity].
Defined.

(** ** C5 *)

Lemma explosionStep_inv (x : Explosion.t) : explosionInv x -> explosionInv (explosionStep x).
Proof.
  unfold explosionInv, explosionStep.
  destruct x as [p sp r mx g sh c a]; simpl.
  intros [Hg Ha]. destruct a; simpl; [| split; [exact Hg | discriminate]].
  specialize (Ha eq_refl) as (Hr0 & Hr1 & Hr2).
  destruct sh; simpl.
  - destruct (Rleb (r - g * 0.5) 0) eqn:Hle; simpl.
    + split; [exact Hg | discriminate].
    + apply Rleb_false in Hle. split; [exact Hg |]. intros _.
      split; [lra | split; [lra | discriminate]].
  - specialize (Hr2 eq_refl).
    destruct (Rleb mx (r + g)) eqn:Hle; simpl.
    + split; [exact Hg |]. intros _. split; [lra | split; [lra | discriminate]].
    + apply Rleb_false in Hle. split; [exact Hg |]. intros _.
      split; [lra | split; [lra | intros _; lra]].
Qed.

Lemma playerExplosion_inv (mode : GameMode) (speedScale : R) (m : Entity.t) :
  0 <= speedScale -> explosionInv (playerExplosion (MODE_CONFIGS mode) speedScale m).
Proof.
  intros Hs; unfold explosionInv, playerExplosion; simpl.
  split; [lra |]. intros _.
  destruct mode; simpl; (split; [lra | split; [lra | intros _; lra]]).
Qed.

Lemma threatExplosion_inv (speedScale : R) (e : Entity.t) :
  0 <= speedScale -> explosionInv (threatExplosion speedScale e).
Proof.
  intros Hs; unfold explosionInv, threatExplosion; simpl.
  split; [lra |]. intros _. split; [lra | split; [lra | intros _; lra]].
Qed.

Lemma updateMissiles_exps (cfg : ModeConfig) (speedScale : R) (ms : list Entity.t)
    (exps : list Explosion.t) :
  exists l, snd (updateMissiles cfg speedScale ms exps) = exps ++ l
            /\ Forall (fun x => exists m, x = playerExplosion cfg speedScale m) l.
Proof.
  revert exps; induction ms as [| m rest IH]; intros exps.
  - exists []; rewrite app_nil_r; auto.
  - simpl. destruct (Entity.active m).
    + destruct (kinStep speedScale m) as [m' arrived].
      set (exps' := if arrived then _ else _).
      destruct (IH exps') as (l & Hl & Hf).
      destruct (updateMissiles cfg speedScale rest exps') as [r e]; simpl in Hl |- *.
      destruct arrived.
      * exists (playerExplosion cfg speedScale m :: l).
        split; [subst exps'; rewrite Hl, <- app_assoc; reflexivity |].
        constructor; eauto.
      * exists l; split; assumption.
    + destruct (IH exps) as (l & Hl & Hf).
      destruct (updateMissiles cfg speedScale rest exps) as [r e]; simpl in Hl |- *.
      exists l; split; assumption.
Qed.

Lemma Forall_filter_in {A : Type} (P : A -> Prop) (f : A -> bool) (l : list A) :
  Forall P l -> Forall P (filter f l).
Proof.
  intros H; apply Forall_forall; intros x Hx; apply filter_In in Hx as [Hx _].
  rewrite Forall_forall in H; auto.
Qed.

Lemma update_explosionInv (time : R) (d : Draws) (w : World) :
  lastTimeRef w <= time ->
  Forall explosionInv (explosionsRef w) ->
  Forall explosionInv (explosionsRef (update time d w)).
Proof.
  intros Ht Hinv. unfold update.
  destruct (GameState.status (gameState w)) eqn:Hst; try exact Hinv.
  set (deltaTime := time - (if Reqb (lastTimeRef w) 0 then time else lastTimeRef w)).
  assert (Hss : 0 <= deltaTime / 16.67).
  { unfold deltaTime; destruct (Reqb (lastTimeRef w) 0); apply Rmult_le_pos; lra. }
  destruct (spawnStep _ _ _ _ _ _ _ _) as [timer enemies0].
  destruct (updateMissiles_exps (MODE_CONFIGS (GameState.mode (gameState w)))
              (deltaTime / 16.67) (missilesRef w) (explosionsRef w)) as (l1 & Hl1 & Hf1).
  destruct (updateMissiles _ _ _ _) as [missiles1 exps1]; simpl in Hl1; subst exps1.
  match goal with
  | |- context [updateEnemies ?ss ?es ?acc] =>
      pose proof (updateEnemies_acc ss es acc) as Hacc;
      destruct (updateEnemies ss es acc) as [enemies1 [[[[cs bs] exps2] gs] s]]
  end.
  cbn beta iota zeta delta [accStep snd] in Hacc.
  destruct Hacc as (_ & _ & (l2 & Hl2 & Hf2 & _) & _ & _). subst exps2.
  cbn [explosionsRef].
  apply Forall_filter_in, Forall_map.
  apply (Forall_impl _ explosionStep_inv).
  apply Forall_app; split; [apply Forall_app; split; [exact Hinv |] |].
  - eapply Forall_impl; [| exact Hf1]. intros x [m ->]. apply playerExplosion_inv; exact Hss.
  - eapply Forall_impl; [| exact Hf2]. intros x [e ->]. apply threatExplosion_inv; exact Hss.
Qed.

Lemma update_explosions_active (time : R) (d : Draws) (w : World) :
  Forall (fun x => Explosion.active x = true) (explosionsRef w) ->
  Forall (fun x => Explosion.active x = true) (explosionsRef (update time d w)).
Proof.
  intros H. unfold update.
  destruct (GameState.status (gameState w)); try exact H.
  destruct (spawnStep _ _ _ _ _ _ _ _) as [timer enemies0].
  destruct (updateMissiles _ _ _ _) as [missiles1 exps1].
  destruct (updateEnemies _ _ _) as [enemies1 [[[[cs bs] exps2] gs] s]].
  apply filter_active_all.
Qed.

(** C5: an explosion grows by [growthRate] per frame and starts shrinking
    once [radius >= maxRadius]; while shrinking it loses [growthRate * 0.5]
    per frame and is retired once [radius <= 0]; a retired explosion is never
    changed again. Every explosion the code creates satisfies [explosionInv],
    a fresh game has no explosion, and every frame with non-decreasing
    timestamps keeps the explosion list made of active explosions satisfying
    [explosionInv] (new explosions included); hence at every observed frame
    each explosion has [0 <= radius <= maxRadius + growthRate]. *)
Theorem explosion_lifecycle :
  (forall x, Explosion.active x = true -> Explosion.isShrinking x = false ->
     Explosion.radius (explosionStep x) = Explosion.radius x + Explosion.growthRate x
     /\ Explosion.active (explosionStep x) = true
     /\ (Explosion.isShrinking (explosionStep x) = true <->
         Explosion.maxRadius x <= Explosion.radius x + Explosion.growthRate x)) /\
  (forall x, Explosion.active x = true -> Explosion.isShrinking x = true ->
     Explosion.radius (explosionStep x) = Explosion.radius x - Explosion.growthRate x * 0.5
     /\ Explosion.isShrinking (explosionStep x) = true
     /\ (Explosion.active (explosionStep x) = false <->
         Explosion.radius x - Explosion.growthRate x * 0.5 <= 0)) /\
  (forall x, Explosion.active x = false -> explosionStep x = x) /\
  (forall mode speedScale m e, 0 <= speedScale ->
     explosionInv (playerExplosion (MODE_CONFIGS mode) speedScale m)
     /\ explosionInv (threatExplosion speedScale e)) /\
  (forall mode w, explosionsRef (startGame mode w) = []) /\
  (forall time d w,
     lastTimeRef w <= time ->
     Forall (fun x => explosionInv x /\ Explosion.active x = true) (explosionsRef w) ->
     Forall (fun x => explosionInv x /\ Explosion.active x = true)
            (explosionsRef (update time d w))
     /\ Forall (fun x => 0 <= Explosion.radius x
                         <= Explosion.maxRadius x + Explosion.growthRate x)
               (explosionsRef (update time d w))).
Proof.
  split; [| split; [| split; [| split; [| split]]]].
  - intros [p sp r mx g sh c a] Ha Hs; simpl in *; subst a sh.
    unfold explosionStep; simpl.
    destruct (Rleb mx (r + g)) eqn:Hle; simpl;
      [apply Rleb_true in Hle | apply Rleb_false in Hle];
      repeat split; auto; try discriminate; intros; try contradiction.
  - intros [p sp r mx g sh c a] Ha Hs; simpl in *; subst a sh.
    unfold explosionStep; simpl.
    destruct (Rleb (r - g * 0.5) 0) eqn:Hle; simpl;
      [apply Rleb_true in Hle | apply Rleb_false in Hle];
      repeat split; auto; try discriminate; intros; try contradiction.
  - intros x Ha; unfold explosionStep; rewrite Ha; reflexivity.
  - intros mode speedScale m e Hs; split;
      [apply playerExplosion_inv | apply threatExplosion_inv]; exact Hs.
  - reflexivity.
  - intros time d w Ht Hall.
    assert (Hinv : Forall explosionInv (explosionsRef (update time d w))).
    { apply update_explosionInv; [exact Ht |].
      eapply Forall_impl; [| exact Hall]; intros x [H _]; exact H. }
    assert (Hact : Forall (fun x => Explosion.active x = true)
                          (explosionsRef (update time d w))).
    { apply update_explosions_active.
      eapply Forall_impl; [| exact Hall]; intros x [_ H]; exact H. }
    rewrite Forall_forall in Hinv, Hact.
    split; apply Forall_forall; intros x Hx.
    + split; auto.
    + destruct (Hinv x Hx) as [_ Hb]. destruct (Hb (Hact x Hx)) as (H0 & H1 & _).
      split; assumption.
Qed.

(** ** C9 *)

Lemma closestStep_inv (p : Point.t) (seen : list Battery.t) acc (b : Battery.t) :
  closestInv p seen acc -> closestInv p (seen ++ [b]) (closestStep p acc b).
Proof.
  destruct acc as [[bb |] [m |]]; simpl; try contradiction; unfold closestStep.
  - intros (Hin & He & Hm & Hmin).
    destruct (eligible b) eqn:Heb.
    + simpl. destruct (Rltb _ m) eqn:Hlt.
      * apply Rltb_true in Hlt. simpl.
        split; [apply in_or_app; right; left; reflexivity |].
        split; [exact Heb | split; [reflexivity |]].
        intros b' Hb' He'. apply in_app_or in Hb' as [Hb' | [<- | []]]; [| lra].
        specialize (Hmin b' Hb' He'); lra.
      * apply Rltb_false in Hlt. simpl.
        split; [apply in_or_app; left; exact Hin |].
        split; [exact He | split; [exact Hm |]].
        intros b' Hb' He'. apply in_app_or in Hb' as [Hb' | [<- | []]]; [auto | lra].
    + simpl. split; [apply in_or_app; left; exact Hin |].
      split; [exact He | split; [exact Hm |]].
      intros b' Hb' He'. apply in_app_or in Hb' as [Hb' | [<- | []]]; [auto | congruence].
  - intros Hnone. destruct (eligible b) eqn:Heb; simpl.
    + split; [apply in_or_app; right; left; reflexivity |].
      split; [exact Heb | split; [reflexivity |]].
      intros b' Hb' He'. apply in_app_or in Hb' as [Hb' | [<- | []]];
        [rewrite (Hnone b' Hb') in He'; discriminate | lra].
    + intros b' Hb'. apply in_app_or in Hb' as [Hb' | [<- | []]]; auto.
Qed.

Lemma closest_fold_inv (p : Point.t) (bs seen : list Battery.t) acc :
  closestInv p seen acc -> closestInv p (seen ++ bs) (fold_left (closestStep p) bs acc).
Proof.
  revert seen acc; induction bs as [| b bs IH]; intros seen acc H.
  - rewrite app_nil_r; exact H.
  - simpl. replace (seen ++ b :: bs) with ((seen ++ [b]) ++ bs)
      by (rewrite <- app_assoc; reflexivity).
    apply IH, closestStep_inv, H.
Qed.

Lemma closestBattery_spec (bs : list Battery.t) (p : Point.t) :
  match closestBattery bs p with
  | None => forall b, In b bs -> eligible b = false
  | Some b =>
      In b bs /\ eligible b = true
      /\ forall b', In b' bs -> eligible b' = true ->
           Rabs (Point.x (Battery.pos b) - Point.x p)
           <= Rabs (Point.x (Battery.pos b') - Point.x p)
  end.
Proof.
  unfold closestBattery.
  pose proof (closest_fold_inv p bs [] (None, None) ltac:(simpl; tauto)) as H.
  simpl in H. destruct (fold_left (closestStep p) bs (None, None)) as [[b |] [m |]];
    simpl in *; try contradiction.
  - destruct H as (Hin & He & -> & Hmin); auto.
  - exact H.
Qed.

Lemma NoDup_id_unique (bs : list Battery.t) (b b' : Battery.t) :
  NoDup (map Battery.id bs) -> In b bs -> In b' bs -> Battery.id b' = Battery.id b -> b' = b.
Proof.
  induction bs as [| x bs IH]; simpl; [tauto |].
  intros Hnd Hb Hb' Hid. inversion Hnd as [| ? ? Hnotin Hnd']; subst.
  destruct Hb as [-> | Hb], Hb' as [-> | Hb']; auto.
  - exfalso; apply Hnotin; rewrite <- Hid; apply in_map; exact Hb'.
  - exfalso; apply Hnotin; rewrite Hid; apply in_map; exact Hb.
Qed.

Lemma decrementAmmo_id (b pb : Battery.t) : Battery.id (decrementAmmo b pb) = Battery.id pb.
Proof. unfold decrementAmmo; destruct (String.eqb _ _); reflexivity. Qed.

Lemma kept_ids (bs bs' : list Battery.t) :
  Forall2 batteryKept bs bs' -> map Battery.id bs' = map Battery.id bs.
Proof.
  intros H; induction H as [| b b' l l' (Hid & _) _ IH]; simpl; congruence.
Qed.

Lemma kept_ammo (bs bs' : list Battery.t) :
  Forall2 batteryKept bs bs' -> Forall ammoOk bs -> Forall ammoOk bs'.
Proof.
  intros H; induction H as [| b b' l l' (_ & _ & Hm & Hmx & _) _ IH]; intros Hf;
    constructor; inversion Hf; subst; auto.
  unfold ammoOk in *; rewrite Hm, Hmx; assumption.
Qed.

Lemma click_ids (p : Point.t) (w : World) :
  map Battery.id (batteries (handleCanvasClick p w)) = map Battery.id (batteries w).
Proof.
  unfold handleCanvasClick.
  destruct (GameState.status (gameState w)); try reflexivity.
  destruct (closestBattery (batteries w) p); [| reflexivity].
  simpl; rewrite map_map; apply map_ext; intros; apply decrementAmmo_id.
Qed.

Lemma click_ammo (p : Point.t) (w : World) :
  NoDup (map Battery.id (batteries w)) ->
  Forall ammoOk (batteries w) -> Forall ammoOk (batteries (handleCanvasClick p w)).
Proof.
  intros Hnd Hok. unfold handleCanvasClick.
  destruct (GameState.status (gameState w)); try exact Hok.
  pose proof (closestBattery_spec (batteries w) p) as Hspec.
  destruct (closestBattery (batteries w) p) as [b |]; [| exact Hok].
  destruct Hspec as (Hin & He & _). simpl.
  apply Forall_map. rewrite Forall_forall in Hok |- *. intros pb Hpb.
  unfold decrementAmmo. destruct (String.eqb (Battery.id pb) (Battery.id b)) eqn:Hid.
  - apply String.eqb_eq in Hid.
    pose proof (NoDup_id_unique _ _ _ Hnd Hin Hpb Hid); subst pb.
    specialize (Hok b Hin). unfold eligible in He.
    apply andb_true_iff in He as [_ He]. apply Z.ltb_lt in He.
    unfold ammoOk in *; simpl; lia.
  - apply Hok; exact Hpb.
Qed.

(** ** C1 *)

(** C1 (code defect): the inner collision loop checks the blast's [active]
    flag but not the enemy's, so an enemy inside two active player blasts is
    scored twice in one frame: the score rises by 40. *)
Theorem double_credit_in_one_frame :
  scoreRef (update 1016.67 zeroDraws collisionWorld) = (scoreRef collisionWorld + 40)%Z.
Proof.
  unfold update, collisionWorld.
  cbn [gameState GameState.status lastTimeRef spawnTimerRef scoreRef cities batteries
       enemiesRef missilesRef explosionsRef GameState.mode].
  decide_R.
  replace ((1016.67 - 1000) / 16.67) with 1 by lra.
  unfold spawnStep. rewrite spawnInterval_low by lia. decide_R.
  cbn [updateMissiles updateEnemies]. unfold enemyStep, kinStep, collisionEnemy.
  simpl_entities. cbn [negb].
  eval_dist 400. decide_R. cbn [orb checkCollisions].
  unfold hitTest, collisionBlast. simpl_entities. cbn [isEXPLOSION andb].
  eval_dist 0. decide_R. cbn. reflexivity.
Qed.

(** ** C2 *)

Lemma update_spawnTimer (time : R) (d : Draws) (w : World) :
  GameState.status (gameState w) = PLAYING ->
  spawnTimerRef (update time d w) =
  fst (spawnStep (MODE_CONFIGS (GameState.mode (gameState w))) (cities w) (batteries w)
                 (scoreRef w)
                 (time - (if Reqb (lastTimeRef w) 0 then time else lastTimeRef w)) d
                 (spawnTimerRef w) (enemiesRef w)).
Proof.
  intros Hst. unfold update. rewrite Hst.
  destruct (spawnStep _ _ _ _ _ _ _ _) as [timer enemies0].
  destruct (updateMissiles _ _ _ _) as [missiles1 exps1].
  destruct (updateEnemies _ _ _) as [enemies1 [[[[cs bs] exps2] gs] s]].
  reflexivity.
Qed.

(** C2 (code defect): the interval is computed as
    [max(500, 2000 - (score / 100) * 100)] without the floor, i.e.
    [max(500, 2000 - score)]: at score 20 it is 1980 ms instead of 2000 ms,
    so an accumulator of 1990 ms already fires a spawn (timer reset to 0,
    one enemy created). *)
Theorem spawn_interval_without_floor :
  spawnInterval 20 = 1980 /\ spec_spawnInterval 20 = 2000 /\
  spawnTimerRef spawnWorld + (1090 - lastTimeRef spawnWorld) = 1990 /\
  spawnTimerRef (update 1090 zeroDraws spawnWorld) = 0 /\
  spawnStep (MODE_CONFIGS NORMAL) INITIAL_CITIES INITIAL_BATTERIES 20 90 zeroDraws 1900 []
  = (0, [spawnedEnemy (MODE_CONFIGS NORMAL) zeroDraws (Point.mk 200 570)]).
Proof.
  assert (Hfloor : Int_part (0 * INR 7) = 0%Z).
  { unfold Int_part. replace (0 * INR 7) with (IZR 0) by (simpl; ring).
    rewrite <- (up_tech (IZR 0) 0); [reflexivity | lra | simpl; lra]. }
  split; [rewrite spawnInterval_low by lia; lra |].
  split; [unfold spec_spawnInterval; change (20 / 100)%Z with 0%Z; rewrite Rmax_right; lra |].
  split; [simpl; lra |].
  split.
  - rewrite update_spawnTimer by reflexivity. cbn -[Rltb Reqb spawnInterval].
    decide_R. unfold spawnStep. rewrite spawnInterval_low by lia. decide_R.
    reflexivity.
  - unfold spawnStep. rewrite spawnInterval_low by lia. decide_R.
    cbn -[Int_part INR]. unfold floorIndex.
    change (List.length _) with 7%nat. rewrite Hfloor. reflexivity.
Qed.

(** ** C10 *)

(** Evaluates the frame of [impactWorld] at time 1666.8 (a 666.8 ms frame,
    so the enemy's move distance is 40). *)
Ltac eval_impact_frame :=
  unfold update, impactWorld;
  cbn [gameState GameState.status lastTimeRef spawnTimerRef scoreRef cities batteries
       enemiesRef missilesRef explosionsRef GameState.mode];
  decide_R;
  replace ((1666.8 - 1000) / 16.67) with 40 by lra;
  unfold spawnStep; rewrite spawnInterval_low by lia; decide_R;
  cbn [updateMissiles updateEnemies]; unfold enemyStep, kinStep, impactEnemy;
  simpl_entities; cbn [negb];
  eval_dist 30; decide_R; cbn [orb];
  unfold impactCity, impactBattery, INITIAL_CITIES, INITIAL_BATTERIES;
  cbn [map City.pos Battery.pos Point.x Point.y Entity.pos Entity.set_active];
  eval_abs; decide_R;
  cbn [andb checkCollisions map];
  unfold hitTest, threatExplosion; simpl_entities; cbn [isEXPLOSION andb];
  unfold explosionStep; cbn [Explosion.active Explosion.isShrinking negb
                             Explosion.set_radius Explosion.radius
                             Explosion.growthRate Explosion.maxRadius];
  decide_R; cbn; decide_R; cbn.

(** C10: on arrival the ground-impact test and the threat-class explosion
    use the enemy's current position, not its target. An enemy 30 units
    above the city [c1] that it targets, moving 40 units in a long frame,
    arrives there: the impact point (200, 540) is 30 > 25 away from [c1],
    which survives, and the explosion is placed at (200, 540). *)
Theorem impact_at_current_position :
  (forall speedScale e cs bs exps gs s,
     Entity.active e = true -> snd (kinStep speedScale e) = true ->
     (exists gs' s',
        snd (enemyStep speedScale e (cs, bs, exps, gs, s)) =
        (map (impactCity (Entity.pos e)) cs, map (impactBattery (Entity.pos e)) bs,
         exps ++ [threatExplosion speedScale (Entity.set_active false e)], gs', s'))
     /\ Explosion.pos (threatExplosion speedScale (Entity.set_active false e))
        = Entity.pos e) /\
  Entity.target impactEnemy = City.pos (nth 0 INITIAL_CITIES (City.mk "" (Point.mk 0 0) false)) /\
  dist (Point.x (Entity.target impactEnemy) - Point.x (Entity.pos impactEnemy))
       (Point.y (Entity.target impactEnemy) - Point.y (Entity.pos impactEnemy)) = 30 /\
  enemiesRef (update 1666.8 zeroDraws impactWorld) = [] /\
  cities (update 1666.8 zeroDraws impactWorld) = INITIAL_CITIES /\
  map Explosion.pos (explosionsRef (update 1666.8 zeroDraws impactWorld))
  = [Point.mk 200 540].
Proof.
  split.
  - intros speedScale e cs bs exps gs s Ha Hk.
    split; [apply enemyStep_arrival; assumption | reflexivity].
  - split; [reflexivity |].
    split; [apply dist_val; simpl; lra |].
    split; [| split]; eval_impact_frame; reflexivity.
Qed.

(** * Further properties of the component *)

(** ** Lemmas on runs, clicks and frames *)

Lemma run_cons (ev : Event) (evs : list Event) (w : World) :
  run (ev :: evs) w = run evs (dispatch w ev).
Proof. reflexivity. Qed.

Lemma run_preserves (P : World -> Prop) :
  (forall w ev, P w -> P (dispatch w ev)) -> forall evs w, P w -> P (run evs w).
Proof.
  intros H evs; induction evs as [| ev evs IH]; intros w Hw; [exact Hw |].
  rewrite run_cons; apply IH, H, Hw.
Qed.

Lemma Forall2_map_eq {A B : Type} (P : A -> A -> Prop) (f : A -> B) (l l' : list A) :
  (forall a a', P a a' -> f a' = f a) -> Forall2 P l l' -> map f l' = map f l.
Proof. intros Hf H; induction H; simpl; [reflexivity | f_equal; auto]. Qed.

Lemma click_fields (p : Point.t) (w : World) :
  gameState (handleCanvasClick p w) = gameState w /\
  cities (handleCanvasClick p w) = cities w /\
  enemiesRef (handleCanvasClick p w) = enemiesRef w /\
  explosionsRef (handleCanvasClick p w) = explosionsRef w /\
  lastTimeRef (handleCanvasClick p w) = lastTimeRef w /\
  scoreRef (handleCanvasClick p w) = scoreRef w.
Proof.
  unfold handleCanvasClick.
  destruct (GameState.status (gameState w)); try (repeat split; reflexivity).
  destruct (closestBattery (batteries w) p); repeat split; reflexivity.
Qed.

Lemma click_pos_max (p : Point.t) (w : World) :
  map Battery.pos (batteries (handleCanvasClick p w)) = map Battery.pos (batteries w) /\
  map Battery.maxMissiles (batteries (handleCanvasClick p w))
  = map Battery.maxMissiles (batteries w).
Proof.
  unfold handleCanvasClick.
  destruct (GameState.status (gameState w)); try (split; reflexivity).
  destruct (closestBattery (batteries w) p) as [b |]; [| split; reflexivity].
  simpl; rewrite !map_map; split; apply map_ext; intros a;
    unfold decrementAmmo; destruct (String.eqb _ _); reflexivity.
Qed.

Lemma update_lastTime (time : R) (d : Draws) (w : World) :
  lastTimeRef (update time d w) = time.
Proof.
  unfold update. destruct (GameState.status (gameState w)); try reflexivity.
  destruct (spawnStep _ _ _ _ _ _ _ _) as [timer enemies0].
  destruct (updateMissiles _ _ _ _) as [missiles1 exps1].
  destruct (updateEnemies _ _ _) as [enemies1 [[[[cs bs] exps2] gs] s]].
  reflexivity.
Qed.

(** ** Outside PLAYING *)

Lemma idle_step (w : World) (ev : Event) :
  GameState.status (gameState w) <> PLAYING -> frameOrClick ev = true ->
  dispatch w ev = stampTime (match ev with Frame t _ => t | _ => lastTimeRef w end) w.
Proof.
  intros Hst Hev. destruct ev as [time d | p | | |]; try discriminate; simpl.
  - unfold update. destruct (GameState.status (gameState w)); try reflexivity. congruence.
  - unfold handleCanvasClick.
    destruct (GameState.status (gameState w)); try congruence; destruct w; reflexivity.
Qed.

Lemma idle_run (evs : list Event) (w : World) :
  GameState.status (gameState w) <> PLAYING -> forallb frameOrClick evs = true ->
  run evs w = stampTime (lastFrameTime (lastTimeRef w) evs) w.
Proof.
  revert w; induction evs as [| ev evs IH]; intros w Hst Hall.
  - destruct w; reflexivity.
  - simpl in Hall. apply andb_true_iff in Hall as [Hev Hall].
    rewrite run_cons, (idle_step w ev Hst Hev).
    rewrite IH; [| exact Hst | exact Hall].
    unfold lastFrameTime. simpl fold_left. destruct ev; try discriminate; reflexivity.
Qed.

(** ** The enemy loop and the React [gameState] *)

Lemma update_status (time : R) (d : Draws) (w : World) :
  GameState.status (gameState w) = PLAYING ->
  GameState.status (gameState (update time d w)) = PLAYING \/
  GameState.status (gameState (update time d w)) = WON \/
  GameState.status (gameState (update time d w)) = LOST.
Proof.
  intros Hst. unfold update. rewrite Hst.
  destruct (spawnStep _ _ _ _ _ _ _ _) as [timer enemies0].
  destruct (updateMissiles _ _ _ _) as [missiles1 exps1].
  match goal with
  | |- context [updateEnemies ?ss ?es ?acc] =>
      pose proof (updateEnemies_acc ss es acc) as Hacc;
      destruct (updateEnemies ss es acc) as [enemies1 [[[[cs bs] exps2] gs] s]]
  end.
  cbn beta iota zeta delta [accStep snd] in Hacc.
  destruct Hacc as (_ & _ & _ & _ & Hgs).
  cbn [gameState GameState.set_status GameState.status]. unfold endCheck.
  destruct (WIN_SCORE <=? s)%Z; [auto |].
  destruct (_ && _ && _); [auto |]. left; rewrite Hgs, Hst; reflexivity.
Qed.

(** ** The layout invariant *)

Lemma NoDup_layout_ids : NoDup (map Battery.id INITIAL_BATTERIES).
Proof. simpl. repeat constructor; simpl; intuition discriminate. Qed.

Lemma layoutInv_initial : layoutInv initialWorld.
Proof.
  unfold layoutInv; simpl. repeat split; try reflexivity.
  repeat constructor; unfold ammoOk; simpl; lia.
Qed.

Lemma layoutInv_dispatch (w : World) (ev : Event) : layoutInv w -> layoutInv (dispatch w ev).
Proof.
  intros (Hid & Hpos & Hmax & Hammo & Hcid & Hcpos & Hlvl).
  destruct ev as [time d | p | mode | |]; simpl.
  - destruct (update_kept time d w) as [Hc Hb].
    destruct (update_gs time d w) as (Hl & _ & _).
    unfold layoutInv.
    refine (conj _ (conj _ (conj _ (conj _ (conj _ (conj _ _)))))).
    + rewrite <- Hid. apply (Forall2_map_eq batteryKept); [intros a a' (H & _); exact H | exact Hb].
    + rewrite <- Hpos. apply (Forall2_map_eq batteryKept); [intros a a' (_ & H & _); exact H | exact Hb].
    + rewrite <- Hmax.
      apply (Forall2_map_eq batteryKept); [intros a a' (_ & _ & _ & H & _); exact H | exact Hb].
    + eapply kept_ammo; eassumption.
    + rewrite <- Hcid. apply (Forall2_map_eq cityKept); [intros a a' (H & _); exact H | exact Hc].
    + rewrite <- Hcpos. apply (Forall2_map_eq cityKept); [intros a a' (_ & H & _); exact H | exact Hc].
    + rewrite Hl; exact Hlvl.
  - destruct (click_fields p w) as (Hg & Hcs & _).
    destruct (click_pos_max p w) as [Hp Hm].
    unfold layoutInv. rewrite click_ids, Hp, Hm, Hcs, Hg.
    refine (conj Hid (conj Hpos (conj Hmax (conj _ (conj Hcid (conj Hcpos Hlvl)))))).
    apply click_ammo; [rewrite Hid; apply NoDup_layout_ids | exact Hammo].
  - unfold layoutInv; simpl. repeat split; try reflexivity.
    repeat constructor; unfold ammoOk; simpl; lia.
  - exact (conj Hid (conj Hpos (conj Hmax (conj Hammo (conj Hcid (conj Hcpos Hlvl)))))).
  - unfold layoutInv; simpl. repeat split; try reflexivity; [| exact Hlvl].
    repeat constructor; unfold ammoOk; simpl; lia.
Qed.

Lemma layoutInv_run (evs : list Event) : layoutInv (run evs initialWorld).
Proof. apply run_preserves; [apply layoutInv_dispatch | apply layoutInv_initial]. Qed.

Lemma scoreInv_dispatch (w : World) (ev : Event) :
  GameState.score (gameState w) = scoreRef w ->
  GameState.score (gameState (dispatch w ev)) = scoreRef (dispatch w ev).
Proof.
  intros H. destruct ev as [time d | p | mode | |]; simpl.
  - apply update_gs; exact H.
  - destruct (click_fields p w) as (Hg & _ & _ & _ & _ & Hs). rewrite Hg, Hs; exact H.
  - reflexivity.
  - exact H.
  - exact H.
Qed.

(** ** Spawning *)

Lemma floorIndex_lt (r : R) (n : nat) :
  0 <= r < 1 -> (0 < n)%nat -> (floorIndex (r * INR n) < n)%nat.
Proof.
  intros [Hr0 Hr1] Hn. unfold floorIndex.
  assert (Hpos : 0 < INR n) by (apply lt_0_INR; exact Hn).
  destruct (base_Int_part (r * INR n)) as [Hle Hgt].
  assert (H1 : IZR (Int_part (r * INR n)) < IZR (Z.of_nat n))
    by (rewrite <- INR_IZR_INZ; nra).
  assert (H2 : IZR (-1) < IZR (Int_part (r * INR n))) by nra.
  apply lt_IZR in H1, H2. lia.
Qed.

Lemma targetOptions_in (cs : list City.t) (bs : list Battery.t) (q : Point.t) :
  In q (targetOptions cs bs) ->
  (exists c, In c cs /\ City.destroyed c = false /\ q = City.pos c) \/
  (exists b, In b bs /\ Battery.destroyed b = false /\ q = Battery.pos b).
Proof.
  unfold targetOptions. intros H. apply in_app_or in H as [H | H].
  - left. apply in_map_iff in H as (c & <- & Hc). apply filter_In in Hc as [Hc Hd].
    exists c. split; [exact Hc | split; [destruct (City.destroyed c); [discriminate | reflexivity] | reflexivity]].
  - right. apply in_map_iff in H as (b & <- & Hb). apply filter_In in Hb as [Hb Hd].
    exists b. split; [exact Hb | split; [destruct (Battery.destroyed b); [discriminate | reflexivity] | reflexivity]].
Qed.

Lemma spawnStep_cases (cfg : ModeConfig) (cs : list City.t) (bs : list Battery.t) (score : Z)
    (dt : R) (d : Draws) (timer : R) (es : list Entity.t) :
  0 <= rnd_target d < 1 ->
  let '(timer', es') := spawnStep cfg cs bs score dt d timer es in
  (timer + dt <= spawnInterval score /\ timer' = timer + dt /\ es' = es) \/
  (spawnInterval score < timer + dt /\ timer' = 0 /\
   ((targetOptions cs bs = [] /\ es' = es) \/
    (exists q, In q (targetOptions cs bs) /\ es' = es ++ [spawnedEnemy cfg d q]))).
Proof.
  intros Hr. unfold spawnStep. cbv zeta.
  destruct (Rltb (spawnInterval score) (timer + dt)) eqn:Hlt.
  - apply Rltb_true in Hlt.
    destruct (targetOptions cs bs) as [| q0 l] eqn:Ht; cbv iota beta; right;
      (split; [exact Hlt | split; [reflexivity |]]); [left; auto |].
    right. eexists; split; [| reflexivity].
    apply nth_In. apply floorIndex_lt; [exact Hr | simpl; lia].
  - apply Rltb_false in Hlt. cbv iota beta. left. split; [lra | auto].
Qed.

Lemma spawnStep_length (cfg : ModeConfig) (cs : list City.t) (bs : list Battery.t) (score : Z)
    (dt : R) (d : Draws) (timer : R) (es : list Entity.t) :
  (List.length (snd (spawnStep cfg cs bs score dt d timer es)) <= S (List.length es))%nat.
Proof.
  unfold spawnStep. destruct (Rltb _ _); [| simpl; lia].
  destruct (targetOptions cs bs); simpl; [lia |]. rewrite length_app; simpl; lia.
Qed.

Lemma spawnInterval_ge (score : Z) : 500 <= spawnInterval score.
Proof. unfold spawnInterval; apply Rmax_l. Qed.

(** ** Entity counts *)

Lemma updateEnemies_length (speedScale : R) (es : list Entity.t) (acc : EnemyAcc) :
  List.length (fst (updateEnemies speedScale es acc)) = List.length es.
Proof.
  revert acc; induction es as [| e rest IH]; intros acc; [reflexivity |].
  simpl. destruct (enemyStep speedScale e acc) as [e' acc'].
  specialize (IH acc'). destruct (updateEnemies speedScale rest acc') as [r a].
  simpl in *; lia.
Qed.

Lemma updateMissiles_length (cfg : ModeConfig) (speedScale : R) (ms : list Entity.t)
    (exps : list Explosion.t) :
  List.length (fst (updateMissiles cfg speedScale ms exps)) = List.length ms.
Proof. rewrite updateMissiles_fst, length_map; reflexivity. Qed.

(** ** Ammunition *)

Lemma sumAmmo_cons (b : Battery.t) (bs : list Battery.t) :
  sumAmmo (b :: bs) = (Battery.missiles b + sumAmmo bs)%Z.
Proof. reflexivity. Qed.

Lemma map_decrement_other (b : Battery.t) (bs : list Battery.t) :
  ~ In (Battery.id b) (map Battery.id bs) -> map (decrementAmmo b) bs = bs.
Proof.
  induction bs as [| x bs IH]; simpl; intros Hn; [reflexivity |].
  unfold decrementAmmo at 1.
  destruct (String.eqb (Battery.id x) (Battery.id b)) eqn:Heq.
  - apply String.eqb_eq in Heq. exfalso; apply Hn; left; exact Heq.
  - rewrite IH; [reflexivity | intros H; apply Hn; right; exact H].
Qed.

Lemma sumAmmo_decrement (b : Battery.t) (bs : list Battery.t) :
  NoDup (map Battery.id bs) -> In b bs ->
  sumAmmo (map (decrementAmmo b) bs) = (sumAmmo bs - 1)%Z.
Proof.
  induction bs as [| x bs IH]; [intros _ [] |].
  intros Hnd Hin. cbn [map] in Hnd |- *. inversion Hnd as [| ? ? Hnotin Hnd']; subst.
  rewrite !sumAmmo_cons. unfold decrementAmmo at 1.
  destruct (String.eqb (Battery.id x) (Battery.id b)) eqn:Heq.
  - apply String.eqb_eq in Heq. rewrite map_decrement_other by (rewrite <- Heq; exact Hnotin).
    simpl. lia.
  - destruct Hin as [-> | Hin]; [rewrite String.eqb_refl in Heq; discriminate |].
    rewrite IH by assumption. lia.
Qed.

Lemma sumAmmo_kept (bs bs' : list Battery.t) :
  Forall2 batteryKept bs bs' -> sumAmmo bs' = sumAmmo bs.
Proof.
  intros H; induction H as [| b b' l l' (_ & _ & Hm & _) _ IH]; [reflexivity |].
  rewrite !sumAmmo_cons, Hm, IH; reflexivity.
Qed.

Lemma click_conserves (p : Point.t) (w : World) :
  NoDup (map Battery.id (batteries w)) ->
  (sumAmmo (batteries (handleCanvasClick p w))
   + Z.of_nat (List.length (missilesRef (handleCanvasClick p w)))
   = sumAmmo (batteries w) + Z.of_nat (List.length (missilesRef w)))%Z.
Proof.
  intros Hnd. unfold handleCanvasClick.
  destruct (GameState.status (gameState w)); try reflexivity.
  pose proof (closestBattery_spec (batteries w) p) as Hspec.
  destruct (closestBattery (batteries w) p) as [b |]; [| reflexivity].
  destruct Hspec as (Hin & _ & _). cbn [batteries missilesRef].
  rewrite sumAmmo_decrement by assumption. rewrite length_app; simpl. lia.
Qed.

Lemma update_missiles_le (time : R) (d : Draws) (w : World) :
  (List.length (missilesRef (update time d w)) <= List.length (missilesRef w))%nat.
Proof.
  unfold update. destruct (GameState.status (gameState w)); try (simpl; lia).
  destruct (spawnStep _ _ _ _ _ _ _ _) as [timer enemies0].
  match goal with
  | |- context [updateMissiles ?c ?ss ?ms ?ex] =>
      pose proof (updateMissiles_length c ss ms ex) as Hl;
      destruct (updateMissiles c ss ms ex) as [missiles1 exps1]
  end.
  destruct (updateEnemies _ _ _) as [enemies1 [[[[cs bs] exps2] gs] s]].
  cbn [missilesRef fst] in Hl |- *. rewrite <- Hl. apply filter_length_le.
Qed.

Lemma update_enemies_le (time : R) (d : Draws) (w : World) :
  (List.length (enemiesRef (update time d w)) <= S (List.length (enemiesRef w)))%nat.
Proof.
  unfold update. destruct (GameState.status (gameState w)); try (simpl; lia).
  match goal with
  | |- context [spawnStep ?c ?cs ?bs ?sc ?dt ?d ?t ?es] =>
      pose proof (spawnStep_length c cs bs sc dt d t es) as Hs;
      destruct (spawnStep c cs bs sc dt d t es) as [timer enemies0]
  end.
  destruct (updateMissiles _ _ _ _) as [missiles1 exps1].
  match goal with
  | |- context [updateEnemies ?ss ?es ?acc] =>
      pose proof (updateEnemies_length ss es acc) as Hl;
      destruct (updateEnemies ss es acc) as [enemies1 [[[[cs bs] exps2] gs] s]]
  end.
  cbn [enemiesRef fst snd] in Hs, Hl |- *.
  pose proof (filter_length_le Entity.active enemies1). lia.
Qed.

(** ** Scoring needs a player blast *)

Lemma checkCollisions_no_blast (e : Entity.t) (exps : list Explosion.t) (gs : GameState.t) (s : Z) :
  Forall (fun x => playerBlast x = false) exps -> checkCollisions e exps gs s = (e, gs, s).
Proof.
  intros H; revert e gs s; induction H as [| x l Hx _ IH]; intros e gs s; [reflexivity |].
  simpl. unfold hitTest. unfold playerBlast in Hx. rewrite Hx. simpl. apply IH.
Qed.

Lemma enemyStep_no_blast (speedScale : R) (e : Entity.t) (cs : list City.t)
    (bs : list Battery.t) (exps : list Explosion.t) (gs : GameState.t) (s : Z) :
  Forall (fun x => playerBlast x = false) exps ->
  exists cs' bs' exps',
    snd (enemyStep speedScale e (cs, bs, exps, gs, s)) = (cs', bs', exps', gs, s) /\
    Forall (fun x => playerBlast x = false) exps'.
Proof.
  intros H. unfold enemyStep. destruct (Entity.active e); [| simpl; eauto].
  simpl negb; cbv iota.
  destruct (kinStep speedScale e) as [e1 arrived]. destruct arrived.
  - assert (H' : Forall (fun x => playerBlast x = false)
                        (exps ++ [threatExplosion speedScale e1]))
      by (apply Forall_app; split; [exact H | repeat constructor]).
    rewrite (checkCollisions_no_blast _ _ _ _ H'). simpl. eauto.
  - rewrite (checkCollisions_no_blast _ _ _ _ H). simpl. eauto.
Qed.

Lemma updateEnemies_no_blast (speedScale : R) (es : list Entity.t) (cs : list City.t)
    (bs : list Battery.t) (exps : list Explosion.t) (gs : GameState.t) (s : Z) :
  Forall (fun x => playerBlast x = false) exps ->
  exists cs' bs' exps',
    snd (updateEnemies speedScale es (cs, bs, exps, gs, s)) = (cs', bs', exps', gs, s).
Proof.
  revert cs bs exps; induction es as [| e rest IH]; intros cs bs exps H; [simpl; eauto |].
  cbn [updateEnemies]. destruct (enemyStep_no_blast speedScale e cs bs exps gs s H)
    as (cs1 & bs1 & exps1 & Hs & H1).
  destruct (enemyStep speedScale e (cs, bs, exps, gs, s)) as [e' acc'].
  cbn [snd] in Hs; subst acc'.
  destruct (IH cs1 bs1 exps1 H1) as (cs2 & bs2 & exps2 & H2).
  destruct (updateEnemies speedScale rest (cs1, bs1, exps1, gs, s)) as [r a].
  cbn [snd] in *. eauto.
Qed.

Lemma updateMissiles_inactive (cfg : ModeConfig) (speedScale : R) (ms : list Entity.t)
    (exps : list Explosion.t) :
  Forall (fun m => Entity.active m = false) ms -> updateMissiles cfg speedScale ms exps = (ms, exps).
Proof.
  intros H; revert exps; induction H as [| m l Hm _ IH]; intros exps; [reflexivity |].
  simpl. rewrite Hm, IH. reflexivity.
Qed.

Lemma update_no_blast (time : R) (d : Draws) (w : World) :
  Forall (fun x => playerBlast x = false) (explosionsRef w) ->
  Forall (fun m => Entity.active m = false) (missilesRef w) ->
  scoreRef (update time d w) = scoreRef w /\
  GameState.score (gameState (update time d w)) = GameState.score (gameState w).
Proof.
  intros Hx Hm. unfold update.
  destruct (GameState.status (gameState w)); try (split; reflexivity).
  destruct (spawnStep _ _ _ _ _ _ _ _) as [timer enemies0].
  rewrite updateMissiles_inactive by exact Hm.
  match goal with
  | |- context [updateEnemies ?ss ?es _] =>
      destruct (updateEnemies_no_blast ss es (cities w) (batteries w) (explosionsRef w)
                  (gameState w) (scoreRef w) Hx) as (cs' & bs' & exps' & Hs);
      destruct (updateEnemies ss es _) as [enemies1 acc]
  end.
  simpl in Hs; subst acc. split; reflexivity.
Qed.

(** ** Player blasts *)

Lemma updateMissiles_snd (cfg : ModeConfig) (speedScale : R) (ms : list Entity.t)
    (exps : list Explosion.t) :
  snd (updateMissiles cfg speedScale ms exps) =
  exps ++ map (playerExplosion cfg speedScale)
              (filter (fun m => Entity.active m && snd (kinStep speedScale m)) ms).
Proof.
  revert exps; induction ms as [| m rest IH]; intros exps; [simpl; rewrite app_nil_r; reflexivity |].
  simpl. destruct (Entity.active m) eqn:Ha; simpl.
  - destruct (kinStep speedScale m) as [m' arrived] eqn:Hk. simpl.
    set (exps' := if arrived then _ else _).
    specialize (IH exps'). destruct (updateMissiles cfg speedScale rest exps') as [r e].
    simpl in IH |- *. rewrite IH. subst exps'.
    destruct arrived; simpl; [rewrite <- app_assoc; reflexivity | reflexivity].
  - specialize (IH exps). destruct (updateMissiles cfg speedScale rest exps) as [r e].
    simpl in *. exact IH.
Qed.

(** ** Enemy targets *)

Lemma kinStep_target (speedScale : R) (m : Entity.t) :
  Entity.target (fst (kinStep speedScale m)) = Entity.target m.
Proof. unfold kinStep. destruct (_ || _); reflexivity. Qed.

Lemma checkCollisions_target (e : Entity.t) (exps : list Explosion.t) (gs : GameState.t) (s : Z) :
  Entity.target (fst (fst (checkCollisions e exps gs s))) = Entity.target e.
Proof.
  revert e gs s; induction exps as [| x rest IH]; intros e gs s; [reflexivity |].
  simpl. destruct (hitTest e x); rewrite IH; reflexivity.
Qed.

Lemma updateEnemies_target (speedScale : R) (es : list Entity.t) (acc : EnemyAcc) :
  map Entity.target (fst (updateEnemies speedScale es acc)) = map Entity.target es.
Proof.
  revert acc; induction es as [| e rest IH]; intros acc; [reflexivity |].
  cbn [updateEnemies]. destruct (enemyStep speedScale e acc) as [e' acc'] eqn:Hs.
  specialize (IH acc'). destruct (updateEnemies speedScale rest acc') as [r a].
  cbn [fst map] in *. rewrite IH. f_equal.
  unfold enemyStep in Hs. destruct acc as [[[[cs bs] exps] gs] s].
  destruct (Entity.active e); simpl in Hs.
  - pose proof (kinStep_target speedScale e) as Hk.
    destruct (kinStep speedScale e) as [e1 arrived]. cbn [fst] in Hk.
    destruct arrived;
      match type of Hs with
      | context [checkCollisions e1 ?l gs s] =>
          pose proof (checkCollisions_target e1 l gs s) as Hp;
          destruct (checkCollisions e1 l gs s) as [[e2 gs2] s2]
      end;
      inversion Hs; subst; cbn [fst] in Hp; congruence.
  - inversion Hs; reflexivity.
Qed.

Lemma targetOptions_layout (w : World) (q : Point.t) :
  layoutInv w -> In q (targetOptions (cities w) (batteries w)) -> In q layoutPositions.
Proof.
  intros (_ & Hpos & _ & _ & _ & Hcpos & _) Hq.
  unfold layoutPositions. rewrite <- Hpos, <- Hcpos.
  apply in_or_app.
  destruct (targetOptions_in _ _ _ Hq) as [(c & Hc & _ & ->) | (b & Hb & _ & ->)];
    [left | right]; apply in_map; assumption.
Qed.

Lemma targets_dispatch (w : World) (ev : Event) :
  layoutInv w -> eventDrawsOk ev ->
  Forall (fun e => In (Entity.target e) layoutPositions) (enemiesRef w) ->
  Forall (fun e => In (Entity.target e) layoutPositions) (enemiesRef (dispatch w ev)).
Proof.
  intros Hinv Hev H. destruct ev as [time d | p | mode | |]; cbn [dispatch].
  - cbn [eventDrawsOk] in Hev. unfold drawsOk in Hev. destruct Hev as (Hr & _).
    unfold update. destruct (GameState.status (gameState w)); try exact H.
    match goal with
    | |- context [spawnStep ?c ?cs ?bs ?sc ?dt ?d ?t ?es] =>
        pose proof (spawnStep_cases c cs bs sc dt d t es Hr) as Hsp;
        destruct (spawnStep c cs bs sc dt d t es) as [timer enemies0]
    end.
    destruct (updateMissiles _ _ _ _) as [missiles1 exps1].
    match goal with
    | |- context [updateEnemies ?ss ?es ?acc] =>
        pose proof (updateEnemies_target ss es acc) as Ht;
        destruct (updateEnemies ss es acc) as [enemies1 [[[[cs bs] exps2] gs] s]]
    end.
    cbn [enemiesRef fst] in Ht |- *.
    apply Forall_filter_in.
    assert (H0 : Forall (fun e => In (Entity.target e) layoutPositions) enemies0).
    { destruct Hsp as [(_ & _ & ->) | (_ & _ & [(_ & ->) | (q & Hq & ->)])];
        [exact H | exact H |].
      apply Forall_app; split; [exact H |]. constructor; [| constructor].
      simpl. eapply targetOptions_layout; eassumption. }
    apply (proj2 (Forall_map Entity.target (fun q => In q layoutPositions) enemies0)) in H0.
    apply (proj1 (Forall_map Entity.target (fun q => In q layoutPositions) enemies1)).
    rewrite Ht. exact H0.
  - destruct (click_fields p w) as (_ & _ & He & _). rewrite He; exact H.
  - constructor.
  - exact H.
  - exact H.
Qed.

Lemma targets_run (evs : list Event) (w : World) :
  layoutInv w -> Forall eventDrawsOk evs ->
  Forall (fun e => In (Entity.target e) layoutPositions) (enemiesRef w) ->
  Forall (fun e => In (Entity.target e) layoutPositions) (enemiesRef (run evs w)).
Proof.
  intros Hinv Hevs; revert w Hinv; induction Hevs as [| ev evs Hev _ IH]; intros w Hinv H;
    [exact H |].
  rewrite run_cons. apply IH; [apply layoutInv_dispatch; exact Hinv |].
  apply targets_dispatch; assumption.
Qed.

(** ** Explosions over a run *)

Lemma explosions_run (evs : list Event) (w : World) (t : R) :
  0 <= t -> lastTimeRef w <= t ->
  Forall (fun x => explosionInv x /\ Explosion.active x = true) (explosionsRef w) ->
  timesFrom t evs ->
  Forall (fun x => explosionInv x /\ Explosion.active x = true) (explosionsRef (run evs w)).
Proof.
  revert w t; induction evs as [| ev evs IH]; intros w t H0 Hl Hx Ht; [exact Hx |].
  rewrite run_cons. destruct ev as [time d | p | mode | |]; cbn [timesFrom] in Ht; cbn [dispatch].
  - destruct Ht as [Htt Ht]. apply (IH _ time); [lra | rewrite update_lastTime; lra | | exact Ht].
    apply Forall_and_inv in Hx as [Hinv Hact].
    apply Forall_and;
      [apply update_explosionInv; [lra | exact Hinv] | apply update_explosions_active; exact Hact].
  - destruct (click_fields p w) as (_ & _ & _ & Hex & Hlt & _).
    apply (IH _ t); [exact H0 | rewrite Hlt; exact Hl | rewrite Hex; exact Hx | exact Ht].
  - apply (IH _ t); [exact H0 | exact H0 | constructor | exact Ht].
  - apply (IH _ t); assumption.
  - apply (IH _ t); assumption.
Qed.

(** ** The ammunition panel *)

Lemma layout_bounds (w : World) :
  layoutInv w ->
  Forall (fun b => (0 <= Battery.missiles b <= Battery.maxMissiles b)%Z
                   /\ (0 < Battery.maxMissiles b <= 40)%Z) (batteries w).
Proof.
  intros (_ & _ & Hmax & Hammo & _).
  assert (Hm : Forall (fun m => (0 < m <= 40)%Z) (map Battery.maxMissiles (batteries w)))
    by (rewrite Hmax; simpl; repeat constructor; lia).
  apply (proj1 (Forall_map _ (fun m => (0 < m <= 40)%Z) _)) in Hm.
  rewrite Forall_forall in *. intros b Hb. split; [apply Hammo | apply Hm]; exact Hb.
Qed.

Lemma ammoBarWidth_range (b : Battery.t) :
  (0 <= Battery.missiles b <= Battery.maxMissiles b)%Z -> (0 < Battery.maxMissiles b)%Z ->
  0 <= ammoBarWidth b <= 100.
Proof.
  intros [H0 H1] H2. unfold ammoBarWidth.
  apply IZR_le in H0, H1. apply IZR_lt in H2.
  set (m := IZR (Battery.missiles b)) in *. set (c := IZR (Battery.maxMissiles b)) in *.
  assert (Hi : 0 < / c) by (apply Rinv_0_lt_compat; exact H2).
  assert (Hc : c * / c = 1) by (field; lra).
  assert (Hq0 : 0 <= m * / c) by nra.
  assert (Hq1 : 0 <= (c - m) * / c) by (apply Rmult_le_pos; lra).
  unfold Rdiv. nra.
Qed.

Lemma labelOk_small (n : nat) : (n <= 40)%nat -> labelOk n = true.
Proof.
  intros Hn. assert (Hall : forallb labelOk (seq 0 41) = true) by (vm_compute; reflexivity).
  rewrite forallb_forall in Hall. apply Hall, in_seq. lia.
Qed.

Lemma ammoLabel_ok (b : Battery.t) :
  (0 <= Battery.missiles b <= 40)%Z ->
  String.length (ammoLabel b) = 2%nat /\
  exists n, decimalValue (ammoLabel b) = Some n /\ Z.of_nat n = Battery.missiles b.
Proof.
  intros [H0 H1]. unfold ammoLabel, numberToString.
  replace ((Battery.missiles b <? 0)%Z) with false by (symmetry; apply Z.ltb_ge; lia).
  pose proof (labelOk_small (Z.to_nat (Battery.missiles b)) ltac:(lia)) as H.
  unfold labelOk in H. apply andb_true_iff in H as [Hl Hv]. apply Nat.eqb_eq in Hl.
  split; [exact Hl |].
  revert Hv. destruct (decimalValue (padStart (natToString (Z.to_nat (Battery.missiles b))) 2 "0"%char))
    as [k |]; intros Hv; [| discriminate].
  apply Nat.eqb_eq in Hv. exists k. split; [reflexivity | lia].
Qed.

(** ** The first frame of a game *)

Lemma startGame_first_frame (mode : GameMode) (w : World) (time : R) (d : Draws) :
  update time d (startGame mode w) = stampTime time (startGame mode w).
Proof.
  unfold update. cbn [startGame gameState GameState.status lastTimeRef].
  decide_R. cbv iota.
  replace (time - time) with 0 by ring.
  unfold spawnStep. cbn [scoreRef startGame spawnTimerRef].
  rewrite spawnInterval_low by lia. decide_R.
  cbn. rewrite Rplus_0_r. reflexivity.
Qed.

(** ** Ammunition and score over a run *)

Lemma ammo_run (evs : list Event) (w : World) :
  layoutInv w -> forallb frameOrClick evs = true ->
  (sumAmmo (batteries (run evs w)) + Z.of_nat (List.length (missilesRef (run evs w)))
   <= sumAmmo (batteries w) + Z.of_nat (List.length (missilesRef w)))%Z.
Proof.
  revert w; induction evs as [| ev evs IH]; intros w Hinv Hev; [apply Z.le_refl |].
  cbn [forallb] in Hev. apply andb_true_iff in Hev as [H1 Hev].
  rewrite run_cons.
  pose proof (IH (dispatch w ev) (layoutInv_dispatch w ev Hinv) Hev) as IH'.
  destruct ev as [time d | p | mode | |]; try discriminate H1; cbn [dispatch] in IH' |- *.
  - rewrite (sumAmmo_kept _ _ (proj2 (update_kept time d w))) in IH'.
    pose proof (update_missiles_le time d w). lia.
  - assert (Hnd : NoDup (map Battery.id (batteries w))).
    { destruct Hinv as (Hid & _). rewrite Hid. apply NoDup_layout_ids. }
    pose proof (click_conserves p w Hnd). lia.
Qed.

Lemma scoreInv_run (evs : list Event) :
  GameState.score (gameState (run evs initialWorld)) = scoreRef (run evs initialWorld).
Proof.
  apply (run_preserves (fun w => GameState.score (gameState w) = scoreRef w));
    [exact scoreInv_dispatch | reflexivity].
Qed.

Lemma panel_bar_run (evs : list Event) :
  Forall (fun b => 0 <= ammoBarWidth b <= 100) (batteries (run evs initialWorld)).
Proof.
  pose proof (layout_bounds _ (layoutInv_run evs)) as H.
  eapply Forall_impl; [| exact H]. intros b [Ha Hm]. apply ammoBarWidth_range; lia.
Qed.

Lemma panel_label_run (evs : list Event) :
  Forall (fun b => String.length (ammoLabel b) = 2%nat /\
                   exists n, decimalValue (ammoLabel b) = Some n /\ Z.of_nat n = Battery.missiles b)
         (batteries (run evs initialWorld)).
Proof.
  pose proof (layout_bounds _ (layoutInv_run evs)) as H.
  eapply Forall_impl; [| exact H]. intros b [Ha Hm]. apply ammoLabel_ok; lia.
Qed.

(** ** C9: launch requests in reachable states *)

Lemma closestStep_first (p : Point.t) (seen : list Battery.t) acc (b : Battery.t) :
  closestFirst p seen acc -> closestFirst p (seen ++ [b]) (closestStep p acc b).
Proof.
  destruct acc as [[bb |] [m |]]; simpl; try contradiction; unfold closestStep.
  - intros (He & Hm & l1 & l2 & Hseen & H1 & H2).
    destruct (eligible b) eqn:Heb.
    + simpl. destruct (Rltb _ m) eqn:Hlt.
      * apply Rltb_true in Hlt. simpl.
        split; [exact Heb | split; [reflexivity |]].
        exists seen, []. split; [reflexivity |]. split; [| intros _ []].
        intros b' Hb' He'. rewrite Hseen in Hb'.
        apply in_app_or in Hb' as [Hb' | [<- | Hb']].
        -- specialize (H1 b' Hb' He'); lra.
        -- lra.
        -- specialize (H2 b' Hb' He'); lra.
      * apply Rltb_false in Hlt. simpl.
        split; [exact He | split; [exact Hm |]].
        exists l1, (l2 ++ [b]). split; [rewrite Hseen, <- app_assoc; reflexivity |].
        split; [exact H1 |].
        intros b' Hb' He'. apply in_app_or in Hb' as [Hb' | [<- | []]]; [auto | lra].
    + simpl. split; [exact He | split; [exact Hm |]].
      exists l1, (l2 ++ [b]). split; [rewrite Hseen, <- app_assoc; reflexivity |].
      split; [exact H1 |].
      intros b' Hb' He'. apply in_app_or in Hb' as [Hb' | [<- | []]]; [auto | congruence].
  - intros Hnone. destruct (eligible b) eqn:Heb; simpl.
    + split; [exact Heb | split; [reflexivity |]].
      exists seen, []. split; [reflexivity |]. split; [| intros _ []].
      intros b' Hb' He'. rewrite (Hnone b' Hb') in He'; discriminate.
    + intros b' Hb'. apply in_app_or in Hb' as [Hb' | [<- | []]]; auto.
Qed.

Lemma closest_fold_first (p : Point.t) (bs seen : list Battery.t) acc :
  closestFirst p seen acc -> closestFirst p (seen ++ bs) (fold_left (closestStep p) bs acc).
Proof.
  revert seen acc; induction bs as [| b bs IH]; intros seen acc H.
  - rewrite app_nil_r; exact H.
  - simpl. replace (seen ++ b :: bs) with ((seen ++ [b]) ++ bs)
      by (rewrite <- app_assoc; reflexivity).
    apply IH, closestStep_first, H.
Qed.

Lemma closestBattery_first (bs : list Battery.t) (p : Point.t) :
  match closestBattery bs p with
  | None => forall b, In b bs -> eligible b = false
  | Some b =>
      eligible b = true /\
      exists l1 l2, bs = l1 ++ b :: l2
        /\ (forall b', In b' l1 -> eligible b' = true ->
              Rabs (Point.x (Battery.pos b) - Point.x p)
              < Rabs (Point.x (Battery.pos b') - Point.x p))
        /\ (forall b', In b' l2 -> eligible b' = true ->
              Rabs (Point.x (Battery.pos b) - Point.x p)
              <= Rabs (Point.x (Battery.pos b') - Point.x p))
  end.
Proof.
  unfold closestBattery.
  pose proof (closest_fold_first p bs [] (None, None) ltac:(simpl; tauto)) as H.
  simpl in H. destruct (fold_left (closestStep p) bs (None, None)) as [[b |] [m |]];
    simpl in *; try contradiction.
  - destruct H as (He & -> & Hex); auto.
  - exact H.
Qed.

Lemma click_first (p : Point.t) (w : World) :
  layoutInv w -> GameState.status (gameState w) = PLAYING ->
  ((forall b, In b (batteries w) -> eligible b = false) -> handleCanvasClick p w = w) /\
  (forall b0, In b0 (batteries w) -> eligible b0 = true ->
     exists l1 b l2,
       batteries w = l1 ++ b :: l2 /\ eligible b = true /\
       (forall b', In b' l1 -> eligible b' = true ->
          Rabs (Point.x (Battery.pos b) - Point.x p)
          < Rabs (Point.x (Battery.pos b') - Point.x p)) /\
       (forall b', In b' l2 -> eligible b' = true ->
          Rabs (Point.x (Battery.pos b) - Point.x p)
          <= Rabs (Point.x (Battery.pos b') - Point.x p)) /\
       batteries (handleCanvasClick p w) =
         l1 ++ Battery.set_missiles (Battery.missiles b - 1) b :: l2 /\
       missilesRef (handleCanvasClick p w) =
         missilesRef w ++ [Entity.mk (Battery.pos b) (Battery.pos b) p
                             (5 * speedMult (MODE_CONFIGS (GameState.mode (gameState w))))
                             2 PLAYER_MISSILE true]) /\
  Forall ammoOk (batteries (handleCanvasClick p w)).
Proof.
  intros Hinv Hst.
  assert (Hnd : NoDup (map Battery.id (batteries w))).
  { destruct Hinv as (Hid & _). rewrite Hid. apply NoDup_layout_ids. }
  assert (Hok : Forall ammoOk (batteries w)) by (destruct Hinv as (_ & _ & _ & H & _); exact H).
  pose proof (closestBattery_first (batteries w) p) as Hspec.
  split; [| split].
  - intros Hnone. unfold handleCanvasClick. rewrite Hst.
    destruct (closestBattery (batteries w) p) as [b |]; [| reflexivity].
    destruct Hspec as (He & l1 & l2 & Hbs & _).
    rewrite (Hnone b) in He; [discriminate |]. rewrite Hbs. apply in_or_app; right; left; reflexivity.
  - intros b0 Hb0 He0. unfold handleCanvasClick. rewrite Hst.
    destruct (closestBattery (batteries w) p) as [b |].
    + destruct Hspec as (He & l1 & l2 & Hbs & H1 & H2). exists l1, b, l2.
      do 4 (split; [assumption |]). split; [| reflexivity].
      cbn [batteries]. rewrite Hbs in Hnd |- *. rewrite map_app in Hnd |- *. cbn [map] in Hnd |- *.
      pose proof (NoDup_remove_2 _ _ _ Hnd) as Hni.
      rewrite (map_decrement_other b l1), (map_decrement_other b l2)
        by (intros Hin; apply Hni, in_or_app; auto).
      unfold decrementAmmo. rewrite String.eqb_refl. reflexivity.
    + rewrite (Hspec b0 Hb0) in He0; discriminate.
  - apply click_ammo; assumption.
Qed.

(** C9: take any state the component reaches from mount ([run evs
    initialWorld]). Every battery holds between 0 and [maxMissiles] rounds.
    A launch request can arise only while the game is PLAYING: in START,
    WON and LOST an overlay ([absolute inset-0], lines 549-555, 608-612,
    627-632) covers the canvas, so [handleCanvasClick] is not reached. While
    PLAYING, a request towards [p] is a no-op when no battery is intact and
    loaded; otherwise the battery chosen is intact and loaded, strictly
    closer in [|battery.x - p.x|] than every such battery before it in list
    order and no farther than every such battery after it (the first with
    the smallest distance); it alone loses exactly one missile, a missile
    from its position towards [p] is appended, and all batteries stay within
    [0, maxMissiles]. *)
Theorem launch_request_playing (evs : list Event) (p : Point.t) :
  let w := run evs initialWorld in
  Forall ammoOk (batteries w) /\
  (GameState.status (gameState w) = PLAYING ->
   ((forall b, In b (batteries w) -> eligible b = false) -> handleCanvasClick p w = w) /\
   (forall b0, In b0 (batteries w) -> eligible b0 = true ->
      exists l1 b l2,
        batteries w = l1 ++ b :: l2 /\ eligible b = true /\
        (forall b', In b' l1 -> eligible b' = true ->
           Rabs (Point.x (Battery.pos b) - Point.x p)
           < Rabs (Point.x (Battery.pos b') - Point.x p)) /\
        (forall b', In b' l2 -> eligible b' = true ->
           Rabs (Point.x (Battery.pos b) - Point.x p)
           <= Rabs (Point.x (Battery.pos b') - Point.x p)) /\
        batteries (handleCanvasClick p w) =
          l1 ++ Battery.set_missiles (Battery.missiles b - 1) b :: l2 /\
        missilesRef (handleCanvasClick p w) =
          missilesRef w ++ [Entity.mk (Battery.pos b) (Battery.pos b) p
                              (5 * speedMult (MODE_CONFIGS (GameState.mode (gameState w))))
                              2 PLAYER_MISSILE true]) /\
   Forall ammoOk (batteries (handleCanvasClick p w))).
Proof.
  intros w. assert (Hinv : layoutInv w) by exact (layoutInv_run evs). clearbody w.
  split; [destruct Hinv as (_ & _ & _ & H & _); exact H |].
  intros Hst. exact (click_first p w Hinv Hst).
Qed.

Lemma launch_request_playing_witness :
  GameState.status (gameState (run [StartMode NORMAL] initialWorld)) = PLAYING /\
  Forall ammoOk (batteries (handleCanvasClick (Point.mk 250 300) (run [StartMode NORMAL] initialWorld))).
Proof.
  split; [reflexivity |].
  exact (proj2 (proj2 (proj2 (launch_request_playing [StartMode NORMAL] (Point.mk 250 300)) eq_refl))).
Defined.

(** * Properties of the rest of the component *)

(** X1: while no game is being played (status START, WON or LOST), any
    sequence of animation frames and canvas clicks leaves the whole state
    as it was, except that the last frame timestamp is recorded. *)
Theorem idle_frames_and_clicks (evs : list Event) (w : World) :
  GameState.status (gameState w) <> PLAYING -> forallb frameOrClick evs = true ->
  run evs w = stampTime (lastFrameTime (lastTimeRef w) evs) w.
Proof. exact (idle_run evs w). Qed.

Lemma idle_frames_and_clicks_witness :
  GameState.status (gameState initialWorld) <> PLAYING /\
  run [Frame 16 zeroDraws; Click (Point.mk 100 300)] initialWorld = stampTime 16 initialWorld.
Proof.
  split; [discriminate |].
  apply (idle_frames_and_clicks [Frame 16 zeroDraws; Click (Point.mk 100 300)] initialWorld);
    [discriminate | reflexivity].
Defined.

(** X2: the first animation frame after a mode button starts a game has
    elapsed time zero: it spawns, moves and removes nothing and only
    records its timestamp. *)
Theorem first_frame_after_start (mode : GameMode) (w : World) (time : R) (d : Draws) :
  run [StartMode mode; Frame time d] w = stampTime time (startGame mode w).
Proof. exact (startGame_first_frame mode w time d). Qed.

(** X3: a frame never changes the level or the mode, and if the displayed
    score equals the score ref before the frame, it does after it too. *)
Theorem frame_keeps_level_mode_score (time : R) (d : Draws) (w : World) :
  GameState.level (gameState (update time d w)) = GameState.level (gameState w) /\
  GameState.mode (gameState (update time d w)) = GameState.mode (gameState w) /\
  (GameState.score (gameState w) = scoreRef w ->
   GameState.score (gameState (update time d w)) = scoreRef (update time d w)).
Proof. exact (update_gs time d w). Qed.

(** X4: a frame of a game being played leaves the status PLAYING or ends
    the game as WON or LOST; it never returns to START. *)
Theorem frame_status_outcomes (time : R) (d : Draws) (w : World) :
  GameState.status (gameState w) = PLAYING ->
  GameState.status (gameState (update time d w)) = PLAYING \/
  GameState.status (gameState (update time d w)) = WON \/
  GameState.status (gameState (update time d w)) = LOST.
Proof. exact (update_status time d w). Qed.

Lemma frame_status_outcomes_witness :
  GameState.status (gameState demoWorld) = PLAYING /\
  (GameState.status (gameState (update 16 zeroDraws demoWorld)) = PLAYING \/
   GameState.status (gameState (update 16 zeroDraws demoWorld)) = WON \/
   GameState.status (gameState (update 16 zeroDraws demoWorld)) = LOST).
Proof. split; [reflexivity | apply (frame_status_outcomes 16 zeroDraws demoWorld); reflexivity]. Defined.

(** X5: along any sequence of UI events from the initial state, the score
    shown in the game state always equals the score ref. *)
Theorem displayed_score_matches_ref (evs : list Event) :
  GameState.score (gameState (run evs initialWorld)) = scoreRef (run evs initialWorld).
Proof. exact (scoreInv_run evs). Qed.

(** X6: along any sequence of UI events from the initial state, the
    batteries and cities keep the ids and positions of the initial layout,
    the batteries keep their capacities and hold between 0 and their
    capacity in ammunition, and the level stays 1. *)
Theorem layout_stable (evs : list Event) : layoutInv (run evs initialWorld).
Proof. exact (layoutInv_run evs). Qed.

(** X7: with a target draw in [0,1), the spawner either only adds the
    elapsed time to the timer (when the total does not exceed the spawn
    interval), or resets the timer and appends one enemy aimed at an
    intact city or battery, or none when all of them are destroyed. *)
Theorem spawn_outcomes (cfg : ModeConfig) (cs : list City.t) (bs : list Battery.t) (score : Z)
    (dt : R) (d : Draws) (timer : R) (es : list Entity.t) :
  0 <= rnd_target d < 1 ->
  let '(timer', es') := spawnStep cfg cs bs score dt d timer es in
  (timer + dt <= spawnInterval score /\ timer' = timer + dt /\ es' = es) \/
  (spawnInterval score < timer + dt /\ timer' = 0 /\
   ((targetOptions cs bs = [] /\ es' = es) \/
    (exists q, In q (targetOptions cs bs) /\ es' = es ++ [spawnedEnemy cfg d q]))).
Proof. exact (spawnStep_cases cfg cs bs score dt d timer es). Qed.

Lemma spawn_outcomes_witness :
  0 <= rnd_target zeroDraws < 1 /\
  let '(timer', es') :=
    spawnStep (MODE_CONFIGS NORMAL) INITIAL_CITIES INITIAL_BATTERIES 0 2100 zeroDraws 0 [] in
  (0 + 2100 <= spawnInterval 0 /\ timer' = 0 + 2100 /\ es' = []) \/
  (spawnInterval 0 < 0 + 2100 /\ timer' = 0 /\
   ((targetOptions INITIAL_CITIES INITIAL_BATTERIES = [] /\ es' = []) \/
    (exists q, In q (targetOptions INITIAL_CITIES INITIAL_BATTERIES) /\
               es' = [] ++ [spawnedEnemy (MODE_CONFIGS NORMAL) zeroDraws q]))).
Proof.
  split; [cbn; lra |].
  apply (spawn_outcomes (MODE_CONFIGS NORMAL) INITIAL_CITIES INITIAL_BATTERIES 0 2100 zeroDraws 0 []).
  cbn; lra.
Defined.

(** X8: from any state with the initial battery and city layout whose
    enemies are aimed at positions of initial cities or batteries (the
    initial state has none), along any sequence of UI events whose random
    draws lie in [0,1), every enemy on screen stays aimed at the position
    of one of the initial cities or batteries. *)
Theorem enemy_targets_in_layout (evs : list Event) (w : World) :
  layoutInv w -> Forall eventDrawsOk evs ->
  Forall (fun e => In (Entity.target e) layoutPositions) (enemiesRef w) ->
  Forall (fun e => In (Entity.target e) layoutPositions) (enemiesRef (run evs w)).
Proof. exact (targets_run evs w). Qed.

Lemma enemy_targets_in_layout_witness :
  layoutInv impactWorld /\
  Forall eventDrawsOk
    [Frame 1016 zeroDraws; Click (Point.mk 300 200);
     Frame 3200 {| rnd_target := 1/2; rnd_x := 1/4; rnd_startx := 3/4; rnd_speed := 1/2 |}] /\
  Forall (fun e => In (Entity.target e) layoutPositions) (enemiesRef impactWorld) /\
  Forall (fun e => In (Entity.target e) layoutPositions)
    (enemiesRef (run [Frame 1016 zeroDraws; Click (Point.mk 300 200);
                      Frame 3200 {| rnd_target := 1/2; rnd_x := 1/4; rnd_startx := 3/4;
                                    rnd_speed := 1/2 |}] impactWorld)).
Proof.
  assert (H1 : layoutInv impactWorld).
  { unfold layoutInv; simpl. repeat split; try reflexivity.
    repeat constructor; unfold ammoOk; simpl; lia. }
  assert (H2 : Forall eventDrawsOk
    [Frame 1016 zeroDraws; Click (Point.mk 300 200);
     Frame 3200 {| rnd_target := 1/2; rnd_x := 1/4; rnd_startx := 3/4; rnd_speed := 1/2 |}]).
  { apply Forall_cons; [| apply Forall_cons; [exact I | apply Forall_cons; [| apply Forall_nil]]];
      cbn [eventDrawsOk]; unfold drawsOk, zeroDraws; cbn [rnd_target rnd_x rnd_startx rnd_speed];
      repeat split; lra. }
  assert (H3 : Forall (fun e => In (Entity.target e) layoutPositions) (enemiesRef impactWorld)).
  { apply Forall_cons; [| apply Forall_nil].
    unfold layoutPositions; simpl; left; reflexivity. }
  split; [exact H1 | split; [exact H2 | split; [exact H3 |]]].
  exact (enemy_targets_in_layout _ _ H1 H2 H3).
Defined.

(** X9: from any state whose explosions are all active and satisfy
    [explosionInv] (the initial state has none), along any sequence of UI
    events whose frame timestamps are non-negative, not earlier than the
    last frame time and non-decreasing, every explosion on screen is active,
    has a non-negative growth rate, and a radius between 0 and its maximum
    radius plus one growth step, below the maximum radius while it is still
    growing. *)
Theorem explosions_well_formed (evs : list Event) (w : World) (t : R) :
  0 <= t -> lastTimeRef w <= t ->
  Forall (fun x => explosionInv x /\ Explosion.active x = true) (explosionsRef w) ->
  timesFrom t evs ->
  Forall (fun x => explosionInv x /\ Explosion.active x = true) (explosionsRef (run evs w)).
Proof. exact (explosions_run evs w t). Qed.

Lemma explosions_well_formed_witness :
  0 <= 1000 /\ lastTimeRef collisionWorld <= 1000 /\
  Forall (fun x => explosionInv x /\ Explosion.active x = true) (explosionsRef collisionWorld) /\
  timesFrom 1000 [Frame 1016.67 zeroDraws; Click (Point.mk 300 200); Frame 1033.34 zeroDraws] /\
  Forall (fun x => explosionInv x /\ Explosion.active x = true)
    (explosionsRef (run [Frame 1016.67 zeroDraws; Click (Point.mk 300 200);
                         Frame 1033.34 zeroDraws] collisionWorld)).
Proof.
  assert (H0 : 0 <= 1000) by lra.
  assert (H1 : lastTimeRef collisionWorld <= 1000) by (unfold collisionWorld; cbn [lastTimeRef]; lra).
  assert (Hb : explosionInv collisionBlast /\ Explosion.active collisionBlast = true).
  { unfold explosionInv, collisionBlast; cbn [Explosion.growthRate Explosion.active
      Explosion.radius Explosion.maxRadius Explosion.isShrinking].
    split; [split; [lra | intros _; split; [lra | split; [lra | intros _; lra]]] | reflexivity]. }
  assert (H2 : Forall (fun x => explosionInv x /\ Explosion.active x = true)
                      (explosionsRef collisionWorld)).
  { apply Forall_cons; [exact Hb | apply Forall_cons; [exact Hb | apply Forall_nil]]. }
  assert (H3 : timesFrom 1000 [Frame 1016.67 zeroDraws; Click (Point.mk 300 200);
                               Frame 1033.34 zeroDraws]).
  { cbn [timesFrom]. split; [lra | split; [lra | exact I]]. }
  split; [exact H0 | split; [exact H1 | split; [exact H2 | split; [exact H3 |]]]].
  exact (explosions_well_formed _ _ _ H0 H1 H2 H3).
Defined.

(** X10: a frame with no player blast on screen and no player missile in
    flight leaves both the score ref and the displayed score unchanged. *)
Theorem no_blast_no_score (time : R) (d : Draws) (w : World) :
  Forall (fun x => playerBlast x = false) (explosionsRef w) ->
  Forall (fun m => Entity.active m = false) (missilesRef w) ->
  scoreRef (update time d w) = scoreRef w /\
  GameState.score (gameState (update time d w)) = GameState.score (gameState w).
Proof. exact (update_no_blast time d w). Qed.

Lemma no_blast_no_score_witness :
  Forall (fun x => playerBlast x = false) (explosionsRef threatWorld) /\
  Forall (fun m => Entity.active m = false) (missilesRef threatWorld) /\
  scoreRef (update 1016.67 zeroDraws threatWorld) = scoreRef threatWorld /\
  GameState.score (gameState (update 1016.67 zeroDraws threatWorld))
  = GameState.score (gameState threatWorld).
Proof.
  assert (H1 : Forall (fun x => playerBlast x = false) (explosionsRef threatWorld))
    by (apply Forall_cons; [reflexivity | apply Forall_nil]).
  assert (H2 : Forall (fun m => Entity.active m = false) (missilesRef threatWorld))
    by (apply Forall_cons; [reflexivity | apply Forall_nil]).
  split; [exact H1 | split; [exact H2 |]].
  exact (no_blast_no_score 1016.67 zeroDraws threatWorld H1 H2).
Defined.

(** X11: when battery ids are distinct, a canvas click conserves the total
    ammunition of the batteries plus the number of player missiles: a
    launch moves exactly one round from a battery into a missile. *)
Theorem click_conserves_rounds (p : Point.t) (w : World) :
  NoDup (map Battery.id (batteries w)) ->
  (sumAmmo (batteries (handleCanvasClick p w))
   + Z.of_nat (List.length (missilesRef (handleCanvasClick p w)))
   = sumAmmo (batteries w) + Z.of_nat (List.length (missilesRef w)))%Z.
Proof. exact (click_conserves p w). Qed.

Lemma click_conserves_rounds_witness :
  NoDup (map Battery.id (batteries demoWorld)) /\
  (sumAmmo (batteries (handleCanvasClick (Point.mk 100 300) demoWorld))
   + Z.of_nat (List.length (missilesRef (handleCanvasClick (Point.mk 100 300) demoWorld)))
   = sumAmmo (batteries demoWorld) + Z.of_nat (List.length (missilesRef demoWorld)))%Z.
Proof.
  assert (H : NoDup (map Battery.id (batteries demoWorld))) by exact NoDup_layout_ids.
  split; [exact H | apply (click_conserves_rounds _ _ H)].
Defined.

(** X12: from a state with the initial battery layout, no sequence of
    frames and clicks increases the total ammunition plus the number of
    player missiles in flight. *)
Theorem rounds_never_increase (evs : list Event) (w : World) :
  layoutInv w -> forallb frameOrClick evs = true ->
  (sumAmmo (batteries (run evs w)) + Z.of_nat (List.length (missilesRef (run evs w)))
   <= sumAmmo (batteries w) + Z.of_nat (List.length (missilesRef w)))%Z.
Proof. exact (ammo_run evs w). Qed.

Lemma rounds_never_increase_witness :
  layoutInv demoWorld /\ forallb frameOrClick [Click (Point.mk 100 300); Frame 16 zeroDraws] = true /\
  (sumAmmo (batteries (run [Click (Point.mk 100 300); Frame 16 zeroDraws] demoWorld))
   + Z.of_nat (List.length (missilesRef (run [Click (Point.mk 100 300); Frame 16 zeroDraws] demoWorld)))
   <= sumAmmo (batteries demoWorld) + Z.of_nat (List.length (missilesRef demoWorld)))%Z.
Proof.
  assert (H : layoutInv demoWorld).
  { unfold layoutInv; simpl. repeat split; try reflexivity.
    repeat constructor; unfold ammoOk; simpl; lia. }
  split; [exact H | split; [reflexivity |]].
  apply (rounds_never_increase _ _ H); reflexivity.
Defined.

(** X13: a frame never adds a player missile and adds at most one enemy. *)
Theorem frame_entity_counts (time : R) (d : Draws) (w : World) :
  (List.length (missilesRef (update time d w)) <= List.length (missilesRef w))%nat /\
  (List.length (enemiesRef (update time d w)) <= S (List.length (enemiesRef w)))%nat.
Proof. split; [apply update_missiles_le | apply update_enemies_le]. Qed.

(** X14: moving the player missiles appends to the explosion list, after
    the existing explosions and in missile order, one player explosion per
    active missile that reaches its target in this frame, and nothing else. *)
Theorem missile_explosions_appended (cfg : ModeConfig) (speedScale : R) (ms : list Entity.t)
    (exps : list Explosion.t) :
  snd (updateMissiles cfg speedScale ms exps) =
  exps ++ map (playerExplosion cfg speedScale)
              (filter (fun m => Entity.active m && snd (kinStep speedScale m)) ms).
Proof. exact (updateMissiles_snd cfg speedScale ms exps). Qed.

(** X15: a canvas click never changes the game state, the cities, the
    enemies, the explosions, the last frame time or the score ref. *)
Theorem click_touches_only_launch (p : Point.t) (w : World) :
  gameState (handleCanvasClick p w) = gameState w /\
  cities (handleCanvasClick p w) = cities w /\
  enemiesRef (handleCanvasClick p w) = enemiesRef w /\
  explosionsRef (handleCanvasClick p w) = explosionsRef w /\
  lastTimeRef (handleCanvasClick p w) = lastTimeRef w /\
  scoreRef (handleCanvasClick p w) = scoreRef w.
Proof. exact (click_fields p w). Qed.

(** X16: along any sequence of UI events from the initial state, every
    battery's ammunition bar width lies between 0% and 100%. *)
Theorem ammo_bar_in_range (evs : list Event) :
  Forall (fun b => 0 <= ammoBarWidth b <= 100) (batteries (run evs initialWorld)).
Proof. exact (panel_bar_run evs). Qed.

(** X17: along any sequence of UI events from the initial state, every
    battery's ammunition label is two characters long and reads back as
    its exact ammunition count. *)
Theorem ammo_label_exact (evs : list Event) :
  Forall (fun b => String.length (ammoLabel b) = 2%nat /\
                   exists n, decimalValue (ammoLabel b) = Some n /\ Z.of_nat n = Battery.missiles b)
         (batteries (run evs initialWorld)).
Proof. exact (panel_label_run evs). Qed.
